(** * gspro-connect: the launch-monitor client of [oneshot.py]

    A shallow embedding of the message model, the frame splitter
    [parse_gspro_data] and the session operations of [oneshot.py], with the
    parts of the Python runtime they rest on ([str], [bytes], [dict], the
    [json] module, dataclasses), followed by the properties of the
    specification that were checked against them.

    Conventions.
    - A Python [str] is a list of code points, [bytes] a list of bytes;
      [bytes.decode()] and [bytes(s, encoding="utf8")] are the strict UTF-8
      codec.
    - A Python [dict] is an association list with unique keys, in insertion
      order.
    - A call that may raise returns an [outcome]; loops whose termination the
      code does not guarantee take a fuel argument and answer [OutOfFuel]
      when it runs out, so "the code returns" is "some fuel gives
      [Returned]" and "the code hangs" is "no fuel gives an answer".
    - A [float] is kept as the decimal number its text denotes; rounding to
      binary64 and overflow to infinity are not modelled. *)

From Stdlib Require Import List ZArith NArith Bool Lia.
From Stdlib Require Import Strings.String Strings.Ascii Strings.Byte.
Import ListNotations.

Local Open Scope Z_scope.

(** ** Python strings and bytes *)

Definition char := N.
Definition str := list char.
Definition bytes := list byte.

Definition ord (a : ascii) : char := N_of_ascii a.

(** An ASCII literal as a [str]. *)
Definition lit (s : string) : str := map ord (list_ascii_of_string s).

Arguments lit s%_string.

(** The same with every apostrophe standing for a double quote, to write
    JSON texts, as a [str] and as [bytes]. *)
Definition unquote (a : ascii) : ascii :=
  if Ascii.eqb a "'" then ascii_of_N 34 else a.
Definition qlit (s : string) : str :=
  map (fun a => ord (unquote a)) (list_ascii_of_string s).
Definition qblit (s : string) : bytes :=
  map (fun a => byte_of_ascii (unquote a)) (list_ascii_of_string s).

Arguments qlit s%_string.
Arguments qblit s%_string.

Definition len {A : Type} (l : list A) : Z := Z.of_nat (List.length l).

Fixpoint str_eqb (a b : str) : bool :=
  match a, b with
  | [], [] => true
  | x :: a', y :: b' => N.eqb x y && str_eqb a' b'
  | _, _ => false
  end.

(** [s[i]] for [0 <= i]; [None] is Python's IndexError. *)
Definition str_index (s : str) (i : Z) : option char :=
  if i <? 0 then None else nth_error s (Z.to_nat i).

(** A slice bound as Python normalises it: negative bounds count from the
    end, and everything is clamped to [0 .. len s]. *)
Definition clamp (n i : Z) : Z :=
  if i <? 0 then Z.max 0 (i + n) else Z.min i n.

(** [s[lo:hi]]. *)
Definition slice (s : str) (lo hi : Z) : str :=
  let lo' := clamp (len s) lo in
  let hi' := clamp (len s) hi in
  firstn (Z.to_nat (hi' - lo')) (skipn (Z.to_nat lo') s).

Fixpoint find_aux (ch : char) (s : str) (pos : Z) : Z :=
  match s with
  | [] => -1
  | x :: r => if N.eqb x ch then pos else find_aux ch r (pos + 1)
  end.

(** [s.find(ch, start)] for a one-character needle: the lowest index
    [>= start] holding [ch], or [-1]. *)
Definition str_find (s : str) (ch : char) (start : Z) : Z :=
  let start' := if start <? 0 then Z.max 0 (start + len s) else start in
  find_aux ch (skipn (Z.to_nat start') s) start'.

(** *** The UTF-8 codec (strict error handling) *)

Definition in_range (lo hi x : N) : bool := (N.leb lo x && N.leb x hi)%bool.

Definition is_cont (b : byte) : bool := in_range 128 191 (Byte.to_N b).

Definition low6 (b : byte) : N := (Byte.to_N b - 128)%N.

(** [bytes.decode()]: [None] is UnicodeDecodeError.  Overlong forms,
    surrogates and code points above U+10FFFF are rejected through the
    range allowed for the second byte. *)
Fixpoint utf8_decode (bs : bytes) : option str :=
  match bs with
  | [] => Some []
  | b0 :: r =>
      let x := Byte.to_N b0 in
      if N.ltb x 128 then option_map (cons x) (utf8_decode r)
      else if in_range 194 223 x then
        match r with
        | b1 :: r1 =>
            if is_cont b1
            then option_map (cons ((x - 192) * 64 + low6 b1)%N) (utf8_decode r1)
            else None
        | _ => None
        end
      else if in_range 224 239 x then
        match r with
        | b1 :: b2 :: r2 =>
            let lo := if N.eqb x 224 then 160%N else 128%N in
            let hi := if N.eqb x 237 then 159%N else 191%N in
            if (in_range lo hi (Byte.to_N b1) && is_cont b2)%bool
            then option_map
                   (cons ((x - 224) * 4096 + low6 b1 * 64 + low6 b2)%N)
                   (utf8_decode r2)
            else None
        | _ => None
        end
      else if in_range 240 244 x then
        match r with
        | b1 :: b2 :: b3 :: r3 =>
            let lo := if N.eqb x 240 then 144%N else 128%N in
            let hi := if N.eqb x 244 then 143%N else 191%N in
            if (in_range lo hi (Byte.to_N b1) && is_cont b2 && is_cont b3)%bool
            then option_map
                   (cons ((x - 240) * 262144 + low6 b1 * 4096
                          + low6 b2 * 64 + low6 b3)%N)
                   (utf8_decode r3)
            else None
        | _ => None
        end
      else None
  end.

Definition byte_of (n : N) : byte :=
  match Byte.of_N n with Some b => b | None => x00 end.

(** The UTF-8 bytes of one code point; [None] for a surrogate or a value
    beyond U+10FFFF. *)
Definition utf8_encode_char (c : char) : option bytes :=
  if N.ltb c 128 then Some [byte_of c]
  else if N.ltb c 2048 then
    Some [byte_of (192 + c / 64); byte_of (128 + c mod 64)]%N
  else if in_range 55296 57343 c then None
  else if N.ltb c 65536 then
    Some [byte_of (224 + c / 4096); byte_of (128 + (c / 64) mod 64);
          byte_of (128 + c mod 64)]%N
  else if N.leb c 1114111 then
    Some [byte_of (240 + c / 262144); byte_of (128 + (c / 4096) mod 64);
          byte_of (128 + (c / 64) mod 64); byte_of (128 + c mod 64)]%N
  else None.

(** [bytes(s, encoding="utf8")]: [None] is UnicodeEncodeError. *)
Fixpoint utf8_encode (s : str) : option bytes :=
  match s with
  | [] => Some []
  | c :: r =>
      match utf8_encode_char c, utf8_encode r with
      | Some b, Some br => Some (b ++ br)
      | _, _ => None
      end
  end.

(** ** Python values *)

(** A [float] that came from a decimal text: [(-1)^negative * digits *
    10^exp10], kept exactly; or one of the three constants the [json]
    module also reads and writes. *)
Inductive pyfloat :=
| FDec (negative : bool) (digits : N) (exp10 : Z)
| FNaN
| FInf (negative : bool).

#[warnings="-register-all"]
(** The values the program handles: what [json.loads] produces, and
    dataclass instances ([PData]: the class name and the fields in
    declaration order, as [dataclasses.fields] and [getattr] show them). *)
Inductive pyval :=
| PNone
| PBool (b : bool)
| PInt (z : Z)
| PFloat (f : pyfloat)
| PStr (s : str)
| PList (l : list pyval)
| PDict (d : list (str * pyval))
| PData (cls : str) (flds : list (str * pyval)).

Definition dict := list (str * pyval).

Definition is_dataclass (v : pyval) : bool :=
  match v with PData _ _ => true | _ => false end.

Definition is_None (v : pyval) : bool :=
  match v with PNone => true | _ => false end.

(** *** dict operations *)

Fixpoint dict_get (d : dict) (k : str) : option pyval :=
  match d with
  | [] => None
  | (k', v) :: r => if str_eqb k' k then Some v else dict_get r k
  end.

(** [k in d] *)
Definition dict_mem (d : dict) (k : str) : bool :=
  match dict_get d k with Some _ => true | None => false end.

(** [d[k] = v]: an existing key keeps its place, a new one goes last. *)
Fixpoint dict_set (d : dict) (k : str) (v : pyval) : dict :=
  match d with
  | [] => [(k, v)]
  | (k', v') :: r =>
      if str_eqb k' k then (k', v) :: r else (k', v') :: dict_set r k v
  end.

Fixpoint dict_remove (d : dict) (k : str) : dict :=
  match d with
  | [] => []
  | (k', v') :: r =>
      if str_eqb k' k then r else (k', v') :: dict_remove r k
  end.

(** [d.pop(k)]: the value and the dict without the key; [None] is
    KeyError. *)
Definition dict_pop (d : dict) (k : str) : option (pyval * dict) :=
  match dict_get d k with
  | Some v => Some (v, dict_remove d k)
  | None => None
  end.

Definition dict_keys (d : dict) : list str := map fst d.

(** ** Exceptions and outcomes *)

Inductive exn :=
| AssertionError
| AttributeError
| IndexError
| OSError
| TypeError
| UnicodeDecodeError
| UnicodeEncodeError
| ValueError.

Inductive outcome (A : Type) :=
| Returned (a : A)
| Raised (e : exn)
| OutOfFuel.

Arguments Returned {A} a.
Arguments Raised {A} e.
Arguments OutOfFuel {A}.

Definition bind {A B : Type} (m : outcome A) (k : A -> outcome B) : outcome B :=
  match m with
  | Returned a => k a
  | Raised e => Raised e
  | OutOfFuel => OutOfFuel
  end.

Notation "x <- m ;; k" := (bind m (fun x => k))
  (at level 61, m at next level, right associativity).
Notation "' pat <- m ;; k" := (bind m (fun x => match x with pat => k end))
  (at level 61, pat pattern, m at next level, right associativity).

(** ** The [json] module *)

Module Json.

(** *** Decoding: [json.loads]

    Every way [json.loads] rejects a text is the one exception
    [JSONDecodeError], so the decoder answers with an [option]. *)

Definition is_ws (c : char) : bool :=
  (N.eqb c 32 || N.eqb c 9 || N.eqb c 10 || N.eqb c 13)%bool.

Fixpoint skip_ws (s : str) : str :=
  match s with
  | c :: r => if is_ws c then skip_ws r else s
  | [] => []
  end.

Definition is_digit (c : char) : bool := in_range 48 57 c.

Definition hex_val (c : char) : option N :=
  if in_range 48 57 c then Some (c - 48)%N
  else if in_range 97 102 c then Some (c - 87)%N
  else if in_range 65 70 c then Some (c - 55)%N
  else None.

(** Four hexadecimal digits, as after a backslash-u. *)
Definition hex4 (a b c d : char) : option N :=
  match hex_val a, hex_val b, hex_val c, hex_val d with
  | Some x, Some y, Some z, Some w => Some (((x * 16 + y) * 16 + z) * 16 + w)%N
  | _, _, _, _ => None
  end.

Definition simple_escape (c : char) : option char :=
  if N.eqb c 34 then Some 34%N          (* quote *)
  else if N.eqb c 92 then Some 92%N     (* backslash *)
  else if N.eqb c 47 then Some 47%N     (* slash *)
  else if N.eqb c 98 then Some 8%N      (* b *)
  else if N.eqb c 102 then Some 12%N    (* f *)
  else if N.eqb c 110 then Some 10%N    (* n *)
  else if N.eqb c 114 then Some 13%N    (* r *)
  else if N.eqb c 116 then Some 9%N     (* t *)
  else None.

(** The text after an opening quote, up to the closing one: the decoded
    string and what follows it.  Control characters are refused (strict
    mode); a high surrogate escape followed by a low surrogate escape is
    one code point. *)
Fixpoint scanstring (s : str) (acc : str) : option (str * str) :=
  match s with
  | [] => None
  | c :: r =>
      if N.eqb c 34 then Some (rev acc, r)
      else if N.eqb c 92 then
        match r with
        | [] => None
        | e :: r1 =>
            if N.eqb e 117 then
              match r1 with
              | h1 :: h2 :: h3 :: h4 :: r2 =>
                  match hex4 h1 h2 h3 h4 with
                  | None => None
                  | Some u1 =>
                      if in_range 55296 56319 u1 then
                        match r2 with
                        | b :: u :: l1 :: l2 :: l3 :: l4 :: r3 =>
                            if (N.eqb b 92 && N.eqb u 117)%bool then
                              match hex4 l1 l2 l3 l4 with
                              | None => None
                              | Some u2 =>
                                  if in_range 56320 57343 u2
                                  then scanstring r3
                                         ((65536 + (u1 - 55296) * 1024
                                           + (u2 - 56320))%N :: acc)
                                  else scanstring r2 (u1 :: acc)
                              end
                            else scanstring r2 (u1 :: acc)
                        | _ => scanstring r2 (u1 :: acc)
                        end
                      else scanstring r2 (u1 :: acc)
                  end
              | _ => None
              end
            else
              match simple_escape e with
              | Some x => scanstring r1 (x :: acc)
              | None => None
              end
        end
      else if N.ltb c 32 then None
      else scanstring r (c :: acc)
  end.

(** A run of decimal digits: its value continued from [acc], how many
    digits it has, and the rest. *)
Fixpoint take_digits (s : str) (acc : N) (n : nat) : N * nat * str :=
  match s with
  | c :: r =>
      if is_digit c then take_digits r (acc * 10 + (c - 48))%N (S n)
      else (acc, n, s)
  | [] => (acc, n, [])
  end.

Fixpoint strip_zeros (fuel : nat) (digits : N) (exp10 : Z) : N * Z :=
  match fuel with
  | O => (digits, exp10)
  | S f =>
      if (N.eqb digits 0) then (0%N, 0)
      else if N.eqb (digits mod 10) 0 then strip_zeros f (digits / 10)%N (exp10 + 1)
      else (digits, exp10)
  end.

(** [digits * 10^exp10] with no trailing zero in [digits]; zero is
    [0 * 10^0]. *)
Definition normalize (digits : N) (exp10 : Z) : N * Z :=
  strip_zeros (S (N.to_nat (N.size digits))) digits exp10.

Definition mk_float (negative : bool) (digits : N) (exp10 : Z) : pyfloat :=
  let '(d, e) := normalize digits exp10 in
  FDec negative d e.

(** The integer part of a number: [0], or a digit [1-9] and more digits. *)
Definition int_part (s : str) : option (N * str) :=
  match s with
  | c :: r =>
      if N.eqb c 48 then Some (0%N, r)
      else if in_range 49 57 c then
        let '(v, _, r') := take_digits r (c - 48)%N 1 in Some (v, r')
      else None
  | [] => None
  end.

(** An optional fraction: a dot with at least one digit after it. *)
Definition frac_part (s : str) (acc : N) : option (N * nat * str) :=
  match s with
  | c :: ((d :: _) as r) =>
      if (N.eqb c 46 && is_digit d)%bool then Some (take_digits r acc 0) else None
  | _ => None
  end.

(** An optional exponent: e or E, an optional sign, at least one digit. *)
Definition exp_part (s : str) : option (Z * str) :=
  match s with
  | c :: r =>
      if (N.eqb c 101 || N.eqb c 69)%bool then
        let '(neg, r1) :=
          match r with
          | sg :: r' =>
              if N.eqb sg 45 then (true, r')
              else if N.eqb sg 43 then (false, r') else (false, r)
          | [] => (false, r)
          end in
        match take_digits r1 0 0 with
        | (_, O, _) => None
        | (v, _, r2) => Some (if neg then - Z.of_N v else Z.of_N v, r2)
        end
      else None
  | [] => None
  end.

(** A number: an [int] when it has neither fraction nor exponent, a
    [float] otherwise. *)
Definition scan_number (s : str) : option (pyval * str) :=
  let '(neg, s1) :=
    match s with
    | c :: r => if N.eqb c 45 then (true, r) else (false, s)
    | [] => (false, s)
    end in
  match int_part s1 with
  | None => None
  | Some (i, s2) =>
      match frac_part s2 i, exp_part s2 with
      | None, None => Some (PInt (if neg then - Z.of_N i else Z.of_N i), s2)
      | None, Some (e, s3) => Some (PFloat (mk_float neg i e), s3)
      | Some (m, k, s3), _ =>
          match exp_part s3 with
          | None => Some (PFloat (mk_float neg m (- Z.of_nat k)), s3)
          | Some (e, s4) => Some (PFloat (mk_float neg m (e - Z.of_nat k)), s4)
          end
      end
  end.

Fixpoint strip_prefix (p s : str) : option str :=
  match p, s with
  | [], _ => Some s
  | a :: p', b :: s' => if N.eqb a b then strip_prefix p' s' else None
  | _ :: _, [] => None
  end.

(** One JSON value at the head of [s], and the rest.  The scanner calls
    itself on shorter and shorter texts, at most twice per character, so a
    fuel above twice the length of the text is never exhausted
    ([loads_fuel_enough] below).  The recursion limit of the interpreter
    and its limit on the digits of an [int] are not modelled. *)
Fixpoint scan_once (fuel : nat) (s : str) {struct fuel} : option (pyval * str) :=
  match fuel with
  | O => None
  | S f =>
      match s with
      | [] => None
      | c :: r =>
          if N.eqb c 34 then
            match scanstring r [] with
            | Some (x, r') => Some (PStr x, r')
            | None => None
            end
          else if N.eqb c 123 then
            match skip_ws r with
            | c' :: r' =>
                if N.eqb c' 125 then Some (PDict [], r')
                else object_members f (c' :: r') []
            | [] => None
            end
          else if N.eqb c 91 then
            match skip_ws r with
            | c' :: r' =>
                if N.eqb c' 93 then Some (PList [], r')
                else array_elements f (c' :: r') []
            | [] => None
            end
          else
            match strip_prefix (lit "null") s with
            | Some r' => Some (PNone, r')
            | None =>
            match strip_prefix (lit "true") s with
            | Some r' => Some (PBool true, r')
            | None =>
            match strip_prefix (lit "false") s with
            | Some r' => Some (PBool false, r')
            | None =>
            match strip_prefix (lit "NaN") s with
            | Some r' => Some (PFloat FNaN, r')
            | None =>
            match strip_prefix (lit "Infinity") s with
            | Some r' => Some (PFloat (FInf false), r')
            | None =>
            match strip_prefix (lit "-Infinity") s with
            | Some r' => Some (PFloat (FInf true), r')
            | None => scan_number s
            end end end end end end
      end
  end

(** The members of an object, from the quote that opens a key; a key met
    again keeps its place and takes the later value, as [dict(pairs)]
    does. *)
with object_members (fuel : nat) (s : str) (acc : dict) {struct fuel}
  : option (pyval * str) :=
  match fuel with
  | O => None
  | S f =>
      match s with
      | q :: r =>
          if N.eqb q 34 then
            match scanstring r [] with
            | Some (key, r1) =>
                match skip_ws r1 with
                | colon :: r2 =>
                    if N.eqb colon 58 then
                      match scan_once f (skip_ws r2) with
                      | Some (v, r3) =>
                          let acc' := dict_set acc key v in
                          match skip_ws r3 with
                          | d :: r4 =>
                              if N.eqb d 125 then Some (PDict acc', r4)
                              else if N.eqb d 44
                              then object_members f (skip_ws r4) acc'
                              else None
                          | [] => None
                          end
                      | None => None
                      end
                    else None
                | [] => None
                end
            | None => None
            end
          else None
      | [] => None
      end
  end

(** The elements of an array, from the first character of an element. *)
with array_elements (fuel : nat) (s : str) (acc : list pyval) {struct fuel}
  : option (pyval * str) :=
  match fuel with
  | O => None
  | S f =>
      match scan_once f s with
      | Some (v, r1) =>
          match skip_ws r1 with
          | d :: r2 =>
              if N.eqb d 93 then Some (PList (rev (v :: acc)), r2)
              else if N.eqb d 44 then array_elements f (skip_ws r2) (v :: acc)
              else None
          | [] => None
          end
      | None => None
      end
  end.

(** [json.loads(s)] on a [str]: one value, surrounded by optional
    whitespace and nothing else; a leading byte-order mark is refused. *)
Definition loads_with (fuel : nat) (s : str) : option pyval :=
  match s with
  | 65279%N :: _ => None
  | _ =>
      match scan_once fuel (skip_ws s) with
      | Some (v, rest) =>
          match skip_ws rest with
          | [] => Some v
          | _ :: _ => None
          end
      | None => None
      end
  end.

Definition loads (s : str) : option pyval :=
  loads_with (2 * List.length s + 2) s.

(** *** Encoding: [json.dumps] with its default options

    [ensure_ascii] is on, the separators are a comma and a colon each
    followed by a space, and [allow_nan] lets the three float constants
    through. *)

Definition hex_digit (n : N) : char :=
  if N.ltb n 10 then (48 + n)%N else (87 + n)%N.

(** Backslash, u and four lowercase hexadecimal digits. *)
Definition u_escape (c : N) : str :=
  [92%N; 117%N; hex_digit (c / 4096); hex_digit ((c / 256) mod 16);
   hex_digit ((c / 16) mod 16); hex_digit (c mod 16)].

Definition escape_char (c : char) : str :=
  if N.eqb c 34 then [92%N; 34%N]
  else if N.eqb c 92 then [92%N; 92%N]
  else if N.eqb c 10 then [92%N; 110%N]
  else if N.eqb c 13 then [92%N; 114%N]
  else if N.eqb c 9 then [92%N; 116%N]
  else if N.eqb c 12 then [92%N; 102%N]
  else if N.eqb c 8 then [92%N; 98%N]
  else if in_range 32 126 c then [c]
  else if N.ltb c 65536 then u_escape c
  else
    let n := (c - 65536)%N in
    u_escape (55296 + (n / 1024) mod 1024) ++ u_escape (56320 + n mod 1024).

(** [encode_basestring_ascii]: the quoted, escaped form of a [str]. *)
Definition encode_basestring_ascii (s : str) : str :=
  34%N :: flat_map escape_char s ++ [34%N].

Fixpoint uint_str (d : Decimal.uint) : str :=
  match d with
  | Decimal.Nil => []
  | Decimal.D0 d' => 48%N :: uint_str d'
  | Decimal.D1 d' => 49%N :: uint_str d'
  | Decimal.D2 d' => 50%N :: uint_str d'
  | Decimal.D3 d' => 51%N :: uint_str d'
  | Decimal.D4 d' => 52%N :: uint_str d'
  | Decimal.D5 d' => 53%N :: uint_str d'
  | Decimal.D6 d' => 54%N :: uint_str d'
  | Decimal.D7 d' => 55%N :: uint_str d'
  | Decimal.D8 d' => 56%N :: uint_str d'
  | Decimal.D9 d' => 57%N :: uint_str d'
  end.

Definition N_str (n : N) : str := uint_str (N.to_uint n).

(** [int.__repr__] *)
Definition int_repr (z : Z) : str :=
  if z <? 0 then 45%N :: N_str (Z.abs_N z) else N_str (Z.abs_N z).

Definition zeros (n : nat) : str := repeat 48%N n.

(** [float.__repr__] of a decimal: the digits without trailing zeros,
    with the point placed by [decpt]; exponent notation when [decpt] is at
    most [-4] or above [16]. *)
Definition float_repr (f : pyfloat) : str :=
  match f with
  | FNaN => lit "NaN"
  | FInf false => lit "Infinity"
  | FInf true => lit "-Infinity"
  | FDec negative digits exp10 =>
      let '(d, e) := normalize digits exp10 in
      let ds := N_str d in
      let n := len ds in
      let decpt := n + e in
      let body :=
        if (decpt <=? -4) || (16 <? decpt) then
          firstn 1 ds
          ++ (if 1 <? n then 46%N :: skipn 1 ds else [])
          ++ [101%N; if decpt - 1 <? 0 then 45%N else 43%N]
          ++ (if Z.abs (decpt - 1) <? 10 then [48%N] else [])
          ++ N_str (Z.abs_N (decpt - 1))
        else if decpt <=? 0 then
          [48%N; 46%N] ++ zeros (Z.to_nat (- decpt)) ++ ds
        else if n <=? decpt then
          ds ++ zeros (Z.to_nat (decpt - n)) ++ [46%N; 48%N]
        else
          firstn (Z.to_nat decpt) ds ++ 46%N :: skipn (Z.to_nat decpt) ds
      in
      if negative then 45%N :: body else body
  end.

Definition COMMA_SP : str := [44%N; 32%N].
Definition COLON_SP : str := [58%N; 32%N].

(** The elements of a list, and the items of a dict, joined by the item
    separator; [enc] encodes a value. *)
Fixpoint dumps_elements (enc : pyval -> outcome str) (l : list pyval)
    (first : bool) : outcome str :=
  match l with
  | [] => Returned []
  | x :: l' =>
      sx <- enc x ;;
      rest <- dumps_elements enc l' false ;;
      Returned ((if first then [] else COMMA_SP) ++ sx ++ rest)
  end.

Fixpoint dumps_items (enc : pyval -> outcome str) (d : list (str * pyval))
    (first : bool) : outcome str :=
  match d with
  | [] => Returned []
  | (k, x) :: d' =>
      sx <- enc x ;;
      rest <- dumps_items enc d' false ;;
      Returned ((if first then [] else COMMA_SP)
                ++ encode_basestring_ascii k ++ COLON_SP ++ sx ++ rest)
  end.

(** [json.dumps(v)].  A dataclass instance is not serializable
    (TypeError). *)
Fixpoint dumps (v : pyval) : outcome str :=
  match v with
  | PNone => Returned (lit "null")
  | PBool true => Returned (lit "true")
  | PBool false => Returned (lit "false")
  | PInt z => Returned (int_repr z)
  | PFloat f => Returned (float_repr f)
  | PStr s => Returned (encode_basestring_ascii s)
  | PList l =>
      body <- dumps_elements dumps l true ;;
      Returned (91%N :: body ++ [93%N])
  | PDict d =>
      body <- dumps_items dumps d true ;;
      Returned (123%N :: body ++ [125%N])
  | PData _ _ => Raised TypeError
  end.

End Json.

(** ** The frame splitter: [parse_gspro_data] *)

Definition LBRACE : char := 123%N.
Definition RBRACE : char := 125%N.

(** The inner loop [while msg is None]: look for the next closing brace
    from [start], try the text from [len_processed] through it, and on a
    decoding error move [start] forward by the length of the text tried.
    It returns the decoded message with the text it came from.  A text
    that decodes to [None] leaves [msg] unset and [start] as it was. *)
Fixpoint find_msg (fuel : nat) (data : str) (len_processed start : Z)
  : outcome (pyval * str) :=
  match fuel with
  | O => OutOfFuel
  | S fuel' =>
      let idx_of_close_bracket := str_find data RBRACE start in
      let substr := slice data len_processed (idx_of_close_bracket + 1) in
      match Json.loads substr with
      | Some PNone => find_msg fuel' data len_processed start
      | Some msg => Returned (msg, substr)
      | None => find_msg fuel' data len_processed (start + len substr)
      end
  end.

(** The outer loop [while len_processed < len(data)]. *)
Fixpoint parse_loop (fuel : nat) (data : str) (len_processed : Z)
    (result : list pyval) : outcome (list pyval) :=
  match fuel with
  | O => OutOfFuel
  | S fuel' =>
      if len_processed <? len data then
        match str_index data len_processed with
        | None => Raised IndexError
        | Some c =>
            if N.eqb c LBRACE then
              '(msg, substr) <- find_msg fuel' data len_processed len_processed ;;
              parse_loop fuel' data (len_processed + len substr) (result ++ [msg])
            else Raised AssertionError
        end
      else Returned result
  end.

Definition parse_gspro_data (fuel : nat) (data : bytes) : outcome (list pyval) :=
  match utf8_decode data with
  | None => Raised UnicodeDecodeError
  | Some data' => parse_loop fuel data' 0 []
  end.

(** ** The message model *)

(** What [dataclasses.fields] and [getattr] show of an instance: the class
    name, and each field with its value, in declaration order. *)
Class Dataclass (A : Type) := {
  class_name : str;
  fields_of : A -> list (str * pyval)
}.

Definition obj {A : Type} `{Dataclass A} (a : A) : pyval :=
  PData class_name (fields_of a).

(** An argument left out takes the default. *)
Definition or_default {A : Type} (o : option A) (d : A) : A :=
  match o with Some a => a | None => d end.

(** A measurement: the fields are annotated [float], and the program
    stores ints in them as well. *)
Inductive number :=
| Int (z : Z)
| Float (f : pyfloat).

Definition number_val (n : number) : pyval :=
  match n with Int z => PInt z | Float f => PFloat f end.

(** A field annotated [bool | None]. *)
Definition optbool_val (b : option bool) : pyval :=
  match b with Some x => PBool x | None => PNone end.

Module BallData.

Record t := {
  Speed : number;
  SpinAxis : number;
  TotalSpin : number;
  HLA : number;
  VLA : number
}.

#[global] Instance dataclass : Dataclass t := {
  class_name := lit "BallData";
  fields_of self :=
    [(lit "Speed", number_val (Speed self));
     (lit "SpinAxis", number_val (SpinAxis self));
     (lit "TotalSpin", number_val (TotalSpin self));
     (lit "HLA", number_val (HLA self));
     (lit "VLA", number_val (VLA self))]
}.

End BallData.

Module ShotDataOptions.

Record t := {
  ContainsBallData : bool;
  ContainsClubData : bool;
  LaunchMonitorIsReady : option bool;
  LaunchMonitorBallDetected : option bool;
  IsHeartbeat : option bool
}.

(** [ShotDataOptions()] *)
Definition default : t := {|
  ContainsBallData := true;
  ContainsClubData := false;
  LaunchMonitorIsReady := None;
  LaunchMonitorBallDetected := None;
  IsHeartbeat := None
|}.

#[global] Instance dataclass : Dataclass t := {
  class_name := lit "ShotDataOptions";
  fields_of self :=
    [(lit "ContainsBallData", PBool (ContainsBallData self));
     (lit "ContainsClubData", PBool (ContainsClubData self));
     (lit "LaunchMonitorIsReady", optbool_val (LaunchMonitorIsReady self));
     (lit "LaunchMonitorBallDetected", optbool_val (LaunchMonitorBallDetected self));
     (lit "IsHeartbeat", optbool_val (IsHeartbeat self))]
}.

End ShotDataOptions.

(** The loop [for f in fields(obj)] of [asdict_ignore_none]; [recur] is
    the function itself, called on a dataclass-valued field. *)
Fixpoint asdict_fields (recur : pyval -> outcome dict)
    (fs : list (str * pyval)) (result : dict) : outcome dict :=
  match fs with
  | [] => Returned result
  | (name, val) :: fs' =>
      if is_None val then asdict_fields recur fs' result
      else if is_dataclass val then
        sub <- recur val ;;
        asdict_fields recur fs' (dict_set result name (PDict sub))
      else asdict_fields recur fs' (dict_set result name val)
  end.

(** [asdict_ignore_none(obj)]: the fields whose value is not [None], a
    dataclass-valued field by a recursive call; the [assert] fails on
    anything that is not a dataclass instance. *)
Fixpoint asdict_ignore_none (obj : pyval) : outcome dict :=
  match obj with
  | PData _ flds => asdict_fields asdict_ignore_none flds []
  | _ => Raised AssertionError
  end.

Module Shot.

Record t := {
  DeviceID : str;
  Units : str;
  ShotNumber : Z;
  APIVersion : str;
  BallData : option BallData.t;
  ShotDataOptions : ShotDataOptions.t
}.

#[global] Instance dataclass : Dataclass t := {
  class_name := lit "Shot";
  fields_of self :=
    [(lit "DeviceID", PStr (DeviceID self));
     (lit "Units", PStr (Units self));
     (lit "ShotNumber", PInt (ShotNumber self));
     (lit "APIVersion", PStr (APIVersion self));
     (lit "BallData",
      match BallData self with Some b => obj b | None => PNone end);
     (lit "ShotDataOptions", obj (ShotDataOptions self))]
}.

(** The class attribute [next_shot_number], as the class body sets it.
    It is not a field: it is the one counter every construction reads and
    advances, so the functions that construct a [Shot] take its current
    value and return the new one. *)
Definition next_shot_number : Z := 42.

Definition __post_init__ (self : t) (next_shot_number : Z) : t * Z :=
  ({| DeviceID := DeviceID self;
      Units := Units self;
      ShotNumber := next_shot_number;
      APIVersion := APIVersion self;
      BallData := BallData self;
      ShotDataOptions := ShotDataOptions self |},
   next_shot_number + 1).

(** The keyword arguments of a construction; an absent one takes the
    field's default. *)
Record kwargs := {
  kw_DeviceID : option str;
  kw_Units : option str;
  kw_ShotNumber : option Z;
  kw_APIVersion : option str;
  kw_BallData : option (option BallData.t);
  kw_ShotDataOptions : option ShotDataOptions.t
}.

Definition no_kwargs : kwargs := {|
  kw_DeviceID := None;
  kw_Units := None;
  kw_ShotNumber := None;
  kw_APIVersion := None;
  kw_BallData := None;
  kw_ShotDataOptions := None
|}.

(** The call of the class with keyword arguments: the generated
    [__init__] stores the arguments or the defaults, then runs
    [__post_init__].  The default [ShotDataOptions()] is the one instance
    made when the class is defined, which Python 3.10 accepts as a default
    (later versions refuse a dataclass instance there). *)
Definition __init__ (kw : kwargs) (next_shot_number : Z) : t * Z :=
  __post_init__
    {| DeviceID := or_default (kw_DeviceID kw) (lit "GSPro LM 1.1");
       Units := or_default (kw_Units kw) (lit "Yards");
       ShotNumber := or_default (kw_ShotNumber kw) (-1);
       APIVersion := or_default (kw_APIVersion kw) (lit "1");
       BallData := or_default (kw_BallData kw) None;
       ShotDataOptions :=
         or_default (kw_ShotDataOptions kw) ShotDataOptions.default |}
    next_shot_number.

(** [Shot.heartbeat()] *)
Definition heartbeat (next_shot_number : Z) : t * Z :=
  __init__
    {| kw_DeviceID := None;
       kw_Units := None;
       kw_ShotNumber := None;
       kw_APIVersion := None;
       kw_BallData := None;
       kw_ShotDataOptions :=
         Some {| ShotDataOptions.ContainsBallData := false;
                 ShotDataOptions.ContainsClubData := false;
                 ShotDataOptions.LaunchMonitorIsReady := None;
                 ShotDataOptions.LaunchMonitorBallDetected := None;
                 ShotDataOptions.IsHeartbeat := Some true |} |}
    next_shot_number.

(** [dataclasses.replace(self, **changes)]: a new instance built by
    [__init__] from the changes and, for the fields not changed, the values
    of [self]. *)
Definition replace (self : t) (changes : kwargs) (next_shot_number : Z) : t * Z :=
  __init__
    {| kw_DeviceID := Some (or_default (kw_DeviceID changes) (DeviceID self));
       kw_Units := Some (or_default (kw_Units changes) (Units self));
       kw_ShotNumber := Some (or_default (kw_ShotNumber changes) (ShotNumber self));
       kw_APIVersion := Some (or_default (kw_APIVersion changes) (APIVersion self));
       kw_BallData := Some (or_default (kw_BallData changes) (BallData self));
       kw_ShotDataOptions :=
         Some (or_default (kw_ShotDataOptions changes) (ShotDataOptions self)) |}
    next_shot_number.

(** [self.as_msg()]: [bytes(json.dumps(asdict_ignore_none(self)),
    encoding="utf8")] *)
Definition as_msg (self : t) : outcome bytes :=
  d <- asdict_ignore_none (obj self) ;;
  s <- Json.dumps (PDict d) ;;
  match utf8_encode s with
  | Some b => Returned b
  | None => Raised UnicodeEncodeError
  end.

End Shot.

Module GSProMessage.

(** The fields hold what the caller passes: [create_from_dict] stores the
    decoded JSON values as they are, [Player] included. *)
Record t := {
  Code : pyval;
  Message : pyval;
  Player : pyval;
  Xtra : pyval
}.

#[global] Instance dataclass : Dataclass t := {
  class_name := lit "GSProMessage";
  fields_of self :=
    [(lit "Code", Code self);
     (lit "Message", Message self);
     (lit "Player", Player self);
     (lit "Xtra", Xtra self)]
}.

(** The names of [fields(cls)], in declaration order. *)
Definition field_names : list str :=
  [lit "Code"; lit "Message"; lit "Player"; lit "Xtra"].

Definition is_field (k : str) : bool := existsb (str_eqb k) field_names.

(** The call of the class with keyword arguments only: [Code] has no
    default, so leaving it out is a TypeError, as is a keyword that names no
    field. *)
Definition __init__ (kwargs : dict) : outcome t :=
  if forallb is_field (dict_keys kwargs) then
    match dict_get kwargs (lit "Code") with
    | None => Raised TypeError
    | Some code =>
        Returned
          {| Code := code;
             Message := or_default (dict_get kwargs (lit "Message")) PNone;
             Player := or_default (dict_get kwargs (lit "Player")) PNone;
             Xtra := or_default (dict_get kwargs (lit "Xtra")) (PDict []) |}
    end
  else Raised TypeError.

(** The loop [for f in fields(cls)]: a field name found in [dct] is popped
    from it into [kwargs]. *)
Fixpoint pop_fields (names : list str) (dct kwargs : dict) : dict * dict :=
  match names with
  | [] => (dct, kwargs)
  | name :: rest =>
      if dict_mem dct name then
        match dict_pop dct name with
        | Some (v, dct') => pop_fields rest dct' (dict_set kwargs name v)
        | None => pop_fields rest dct kwargs
        end
      else pop_fields rest dct kwargs
  end.

(** [GSProMessage.create_from_dict(dct)]; the copy [dict(dct)] is the
    value itself here. *)
Definition create_from_dict (dct : dict) : outcome t :=
  let '(dct', kwargs) := pop_fields field_names dct [] in
  let kwargs := dict_set kwargs (lit "Xtra") (PDict dct') in
  __init__ kwargs.

(** Attribute lookup on the class for the callables the program asks for:
    the class defines [create_from_dict] and nothing called [create]. *)
Definition getattr (name : str) : outcome (dict -> outcome t) :=
  if str_eqb name (lit "create_from_dict") then Returned create_from_dict
  else Raised AttributeError.

End GSProMessage.

(** ** The transport *)

Module Socket.

(** What the transport does with one [send]: it takes the first [n] of the
    bytes offered (all of them when there are fewer), or it finds the
    connection broken, the peer having reset it or gone away, and the call
    raises ConnectionResetError or BrokenPipeError, both of them OSError. *)
Inductive send_answer :=
| Takes (n : nat)
| Broken.

(** A connected TCP socket as the session sees it.  [incoming] are the
    chunks the peer's data arrives in, in order, and its end is the peer's
    shutdown; [room] says, for each coming [send], what the transport
    does with it (it takes everything once the list is used up); [sent]
    are the bytes taken so far.  When data arrives is not part of the
    model, so [data_available] (a [select] with no timeout) is not
    embedded. *)
Record t := {
  closed : bool;
  incoming : list bytes;
  room : list send_answer;
  sent : bytes
}.

(** [sock.recv(bufsize)]: at most [bufsize] bytes of what has arrived;
    no bytes when the peer has shut down. *)
Definition recv (s : t) (bufsize : nat) : outcome bytes * t :=
  if closed s then (Raised OSError, s)
  else
    match incoming s with
    | [] => (Returned [], s)
    | chunk :: rest =>
        (Returned (firstn bufsize chunk),
         {| closed := false;
            incoming :=
              match skipn bufsize chunk with
              | [] => rest
              | later => later :: rest
              end;
            room := room s;
            sent := sent s |})
    end.

(** [sock.send(data)]: one attempt.  It returns the number of bytes
    taken, or raises OSError: on a socket that was closed, and on an open
    one whose connection the transport finds broken, in which case nothing
    is written. *)
Definition send (s : t) (data : bytes) : outcome Z * t :=
  if closed s then (Raised OSError, s)
  else
    let took (n : nat) :=
      (Returned (Z.of_nat n),
       {| closed := false;
          incoming := incoming s;
          room := tl (room s);
          sent := sent s ++ firstn n data |}) in
    match room s with
    | [] => took (List.length data)
    | Takes k :: _ => took (Nat.min k (List.length data))
    | Broken :: _ =>
        (Raised OSError,
         {| closed := false;
            incoming := incoming s;
            room := tl (room s);
            sent := sent s |})
    end.

Definition close (s : t) : t :=
  {| closed := true; incoming := incoming s; room := room s; sent := sent s |}.

End Socket.

(** ** The session *)

Module GSProSession.

(** An element of [shots_and_responses]. *)
Inductive entry :=
| SentShot (s : Shot.t)
| Response (m : GSProMessage.t).

Record t := {
  gspro_host : str;
  gspro_port : Z;
  sock : Socket.t;
  shots_and_responses : list entry
}.

(** The session is open as long as its socket has not been closed. *)
Definition is_open (self : t) : Prop := Socket.closed (sock self) = false.

(** [GSProSession(gspro_host, gspro_port)], given the socket the connect
    yields. *)
Definition __init__ (gspro_host : str) (gspro_port : Z) (s : Socket.t) : t :=
  {| gspro_host := gspro_host;
     gspro_port := gspro_port;
     sock := s;
     shots_and_responses := [] |}.

Definition with_sock (self : t) (s : Socket.t) : t :=
  {| gspro_host := gspro_host self;
     gspro_port := gspro_port self;
     sock := s;
     shots_and_responses := shots_and_responses self |}.

Definition with_log (self : t) (l : list entry) : t :=
  {| gspro_host := gspro_host self;
     gspro_port := gspro_port self;
     sock := sock self;
     shots_and_responses := l |}.

(** The comprehension [[GSProMessage.create(dct) for dct in ...]]: the
    attribute is looked up for each element, so an empty list raises
    nothing. *)
Fixpoint create_all (dcts : list pyval) : outcome (list GSProMessage.t) :=
  match dcts with
  | [] => Returned []
  | dct :: rest =>
      create <- GSProMessage.getattr (lit "create") ;;
      m <- match dct with
           | PDict d => create d
           | _ => Raised TypeError
           end ;;
      ms <- create_all rest ;;
      Returned (m :: ms)
  end.

(** [self.recv_data()]: the outcome (the method returns [None]) and the
    session afterwards. *)
Definition recv_data (fuel : nat) (self : t) : outcome unit * t :=
  match Socket.recv (sock self) 2048 with
  | (Returned resp_bytes, s') =>
      let self := with_sock self s' in
      match (dcts <- parse_gspro_data fuel resp_bytes ;; create_all dcts) with
      | Returned msgs =>
          (Returned tt,
           with_log self (shots_and_responses self ++ map Response msgs))
      | Raised e => (Raised e, self)
      | OutOfFuel => (OutOfFuel, self)
      end
  | (Raised e, s') => (Raised e, with_sock self s')
  | (OutOfFuel, s') => (OutOfFuel, with_sock self s')
  end.

(** [self.send_shot(golfshot)] *)
Definition send_shot (self : t) (golfshot : Shot.t) : outcome unit * t :=
  match Shot.as_msg golfshot with
  | Returned shot_data =>
      let self := with_log self (shots_and_responses self ++ [SentShot golfshot]) in
      match Socket.send (sock self) shot_data with
      | (Returned nbytes_sent, s') =>
          if len shot_data =? nbytes_sent
          then (Returned tt, with_sock self s')
          else (Raised ValueError, with_sock self s')
      | (Raised e, s') => (Raised e, with_sock self s')
      | (OutOfFuel, s') => (OutOfFuel, with_sock self s')
      end
  | Raised e => (Raised e, self)
  | OutOfFuel => (OutOfFuel, self)
  end.

(** [self.send_heartbeat()]: the heartbeat is constructed, which advances
    the shot counter, and sent. *)
Definition send_heartbeat (self : t) (next_shot_number : Z)
  : outcome unit * t * Z :=
  let '(hb, next_shot_number) := Shot.heartbeat next_shot_number in
  (send_shot self hb, next_shot_number).

(** [self.close()] *)
Definition close (self : t) : t := with_sock self (Socket.close (sock self)).

End GSProSession.

(** ** The commands of [main] *)

(** [str.lower()] on text whose letters are ASCII, as the names of the
    fields are. *)
Definition ascii_lower (s : str) : str :=
  map (fun c => if in_range 65 90 c then (c + 32)%N else c) s.

(** [s.startswith(prefix)] *)
Fixpoint startswith (s prefix : str) : bool :=
  match prefix, s with
  | [], _ => true
  | p :: prefix', c :: s' => N.eqb c p && startswith s' prefix'
  | _ :: _, [] => false
  end.

(** The names of [fields(BallData)], in declaration order. *)
Definition BallData_field_names : list str :=
  [lit "Speed"; lit "SpinAxis"; lit "TotalSpin"; lit "HLA"; lit "VLA"].

(** [get_balldata_field(prefix)] of [main]: the field of [BallData] whose
    name in lower case starts with [prefix], when there is exactly one.
    The field is given by its name. *)
Definition get_balldata_field (prefix : str) : option str :=
  match filter (fun name => startswith (ascii_lower name) prefix)
               BallData_field_names with
  | [f] => Some f
  | _ => None
  end.

(** ** Definitions used by the statements *)

(** The text one round of the inner loop tries. *)
Definition probe (data : str) (len_processed start : Z) : str :=
  slice data len_processed (str_find data RBRACE start + 1).

(** [n] rounds of the inner loop fail to decode, and so does the next one,
    which tries the empty text and therefore leaves [start] where it is. *)
Fixpoint never_found (n : nat) (data : str) (len_processed start : Z) : bool :=
  let substr := probe data len_processed start in
  match Json.loads substr with
  | Some _ => false
  | None =>
      match n with
      | O => len substr =? 0
      | S n' => never_found n' data len_processed (start + len substr)
      end
  end.

(** Within [n] frames from the cursor the outer loop meets a frame on
    which the inner loop never finds a message. *)
Fixpoint hangs (n : nat) (data : str) (len_processed : Z) : bool :=
  match n with
  | O => false
  | S n' =>
      (len_processed <? len data)
      && match str_index data len_processed with
         | Some c => N.eqb c LBRACE
         | None => false
         end
      && (never_found n' data len_processed len_processed
          || match find_msg n' data len_processed len_processed with
             | Returned (_, substr) => hangs n' data (len_processed + len substr)
             | _ => false
             end)
  end.

(** A frame the inner loop completes in at most two rounds: the text of a
    JSON object whose first closing brace is its last character or, when
    the text up to the first one does not decode, whose second closing
    brace is.  A reply without nested object, and a reply whose one nested
    object comes last, are such frames. *)
Definition first_close (o : str) : Z := str_find o RBRACE 0.

Definition easy_frame (o : str) (v : pyval) : Prop :=
  hd_error o = Some LBRACE
  /\ Json.loads o = Some v
  /\ (first_close o + 1 = len o
      \/ (Json.loads (slice o 0 (first_close o + 1)) = None
          /\ str_find o RBRACE (first_close o + 1) + 1 = len o)).

(** No text that starts at index [lo] of [data] decodes. *)
Definition no_frame_at (data : str) (lo : nat) : bool :=
  forallb
    (fun k =>
       match Json.loads (firstn k (skipn lo data)) with
       | None => true
       | Some _ => false
       end)
    (seq 0 (S (List.length data - lo))).

(** The ways the program constructs a [Shot]: a call of the class, the
    class method [heartbeat], and [dataclasses.replace]. *)
Inductive construction :=
| ByCall (kw : Shot.kwargs)
| ByHeartbeat
| ByReplace (self : Shot.t) (changes : Shot.kwargs).

Definition construct (c : construction) (next_shot_number : Z) : Shot.t * Z :=
  match c with
  | ByCall kw => Shot.__init__ kw next_shot_number
  | ByHeartbeat => Shot.heartbeat next_shot_number
  | ByReplace self changes => Shot.replace self changes next_shot_number
  end.

(** The constructions of a run, in order, from a value of the counter. *)
Fixpoint construct_all (cs : list construction) (next_shot_number : Z)
  : list Shot.t * Z :=
  match cs with
  | [] => ([], next_shot_number)
  | c :: cs' =>
      let '(s, n1) := construct c next_shot_number in
      let '(ss, n2) := construct_all cs' n1 in
      (s :: ss, n2)
  end.

(** The names of the fields of a dataclass instance whose value is not
    [None], in declaration order. *)
Definition set_fields (o : pyval) : list str :=
  match o with
  | PData _ flds =>
      map fst (filter (fun kv => negb (is_None (snd kv))) flds)
  | _ => []
  end.

(** A dict none of whose values is [None]. *)
Definition no_null (d : dict) : Prop :=
  Forall (fun kv => snd kv <> PNone) d.

(** The serialization contract in the words of the specification: a field
    takes part exactly when its value is not unset, and a nested dataclass
    is treated by the same rule. *)
Definition omit_items (recur : pyval -> pyval) (flds : list (str * pyval)) : dict :=
  flat_map
    (fun kv => if is_None (snd kv) then [] else [(fst kv, recur (snd kv))])
    flds.

Fixpoint omit_unset (v : pyval) : pyval :=
  match v with
  | PData _ flds => PDict (omit_items omit_unset flds)
  | _ => v
  end.

Fixpoint distinct (l : list str) : bool :=
  match l with
  | [] => true
  | x :: r => negb (existsb (str_eqb x) r) && distinct r
  end.

(** A dataclass instance as Python builds them: no two fields of a class
    share a name, at any depth. *)
Fixpoint wf_data (v : pyval) : bool :=
  match v with
  | PData _ flds =>
      distinct (map fst flds) && forallb (fun kv => wf_data (snd kv)) flds
  | _ => true
  end.

(** A value [json.dumps] accepts: no dataclass instance anywhere in it. *)
Fixpoint serializable (v : pyval) : bool :=
  match v with
  | PData _ _ => false
  | PList l => forallb serializable l
  | PDict d => forallb (fun kv => serializable (snd kv)) d
  | _ => true
  end.

(** A dataclass instance whose fields, at any depth, hold values that
    [json.dumps] accepts. *)
Fixpoint plain_fields (v : pyval) : bool :=
  match v with
  | PData _ flds => forallb (fun kv => plain_fields (snd kv)) flds
  | _ => serializable v
  end.

Definition is_ascii (c : char) : Prop := (c < 128)%N.

(** The measurements [main] starts from. *)
Definition main_BallData : BallData.t :=
  {| BallData.Speed := Int 75;
     BallData.SpinAxis := Float (FDec false 132 (-1));
     BallData.TotalSpin := Int 9000;
     BallData.HLA := Int (-5);
     BallData.VLA := Int 29 |}.

(** A shot as [main] builds its first one: the defaults and a
    [BallData]. *)
Definition only_BallData (b : BallData.t) : Shot.kwargs :=
  {| Shot.kw_DeviceID := None;
     Shot.kw_Units := None;
     Shot.kw_ShotNumber := None;
     Shot.kw_APIVersion := None;
     Shot.kw_BallData := Some (Some b);
     Shot.kw_ShotDataOptions := None |}.

(** How many bytes the transport takes at the next [send] of [data];
    [None] when it finds the connection broken and takes none. *)
Definition accepted (s : Socket.t) (data : bytes) : option nat :=
  match Socket.room s with
  | [] => Some (List.length data)
  | Socket.Takes k :: _ => Some (Nat.min k (List.length data))
  | Socket.Broken :: _ => None
  end.

(** The bytes the next [recv] of at most [bufsize] bytes yields. *)
Definition next_read (s : Socket.t) (bufsize : nat) : bytes :=
  match Socket.incoming s with
  | [] => []
  | chunk :: _ => firstn bufsize chunk
  end.

(** The buffer of the docstring of [parse_gspro_data] and of [test_resp]:
    four replies back to back, the second with a nested [Player]. *)
Definition four_messages : bytes :=
  qblit "{'Code':200,'Message':'Ball Data received','Player':null}{'Code':201,'Message':'GSPro Player Information','Player':{'Handed':'RH','Club':'DR','DistanceToTarget':380.0}}{'Code':202,'Message':'GSPro ready','Player':null}{'Code':203,'Message':'GSPro round ended','Player':null}".

Definition reply (code : Z) (message : string) (player : pyval) : pyval :=
  PDict [(lit "Code", PInt code); (lit "Message", PStr (lit message));
         (lit "Player", player)].

Definition four_messages_decoded : list pyval :=
  [reply 200 "Ball Data received" PNone;
   reply 201 "GSPro Player Information"
     (PDict [(lit "Handed", PStr (lit "RH")); (lit "Club", PStr (lit "DR"));
             (lit "DistanceToTarget", PFloat (FDec false 38 1))]);
   reply 202 "GSPro ready" PNone;
   reply 203 "GSPro round ended" PNone].

(** The buffer is the text of one JSON object. *)
Definition is_json_object (data : bytes) : bool :=
  match utf8_decode data with
  | Some s =>
      match Json.loads s with
      | Some (PDict _) => true
      | _ => false
      end
  | None => false
  end.

(** One well-formed reply whose [Player] is followed by a second nested
    object. *)
Definition two_nested_objects : bytes :=
  qblit "{'Code':201,'Message':'GSPro Player Information','Player':{'Handed':'RH','Club':'DR','DistanceToTarget':380.0},'Course':{'Hole':1}}".

(** A complete reply followed by the beginning of the next one, as a read
    that ends in the middle of a message delivers it. *)
Definition truncated_second_object : bytes :=
  qblit "{'Code':200,'Message':'Ball Data received','Player':null}{'Code':201,'Message':'GSPro Player Information','Player':{'Handed':'RH'".

(** A buffer whose first byte is not an opening brace and that is not
    UTF-8 text: the letter x, then a byte no UTF-8 sequence contains. *)
Definition not_utf8_buffer : bytes := [x78; xff].

(** The fields the decoder of replies looks for besides its catch-all. *)
Definition known_fields : list str := [lit "Code"; lit "Message"; lit "Player"].

Definition is_known (k : str) : bool := existsb (str_eqb k) known_fields.

(** A reply without [Code]. *)
Definition reply_without_code : dict :=
  [(lit "Message", PStr (lit "GSPro ready")); (lit "Player", PNone)].

(** A reply with a key the model of messages does not know. *)
Definition reply_with_extra : dict :=
  [(lit "Code", PInt 201); (lit "Club", PStr (lit "DR"));
   (lit "Player", PNone)].

(** A session on a fresh connection to the default address: [incoming]
    are the chunks the peer's data arrives in, [room] what the transport
    does with each send. *)
Definition session_on (incoming : list bytes) (room : list Socket.send_answer)
  : GSProSession.t :=
  GSProSession.__init__ (lit "192.168.1.100") 921
    {| Socket.closed := false;
       Socket.incoming := incoming;
       Socket.room := room;
       Socket.sent := [] |}.

(** A frame as the splitter cuts it: a text from an opening brace through a
    closing brace that decodes to a dict. *)
Definition frame_of (frame : str) (msg : pyval) : Prop :=
  (exists body, frame = LBRACE :: body ++ [RBRACE])
  /\ Json.loads frame = Some msg
  /\ exists d, msg = PDict d.

(** A character that ends a value inside a JSON text: whitespace, a comma,
    a closing brace or a closing bracket. *)
Definition is_delim (c : char) : bool :=
  (Json.is_ws c || N.eqb c 44 || N.eqb c 125 || N.eqb c 93)%bool.

Definition delim_head (r : str) : Prop :=
  exists c r0, r = c :: r0 /\ is_delim c = true.

(** A text that opens a string, an object or an array. *)
Definition opens (s : str) : Prop :=
  exists c s', s = c :: s' /\ (c = 34 \/ c = 123 \/ c = 91)%N.

(** Induction on values through the lists nested in them. *)
Section pyval_nested_induction.
Variable P : pyval -> Prop.
Hypothesis HNone : P PNone.
Hypothesis HBool : forall b, P (PBool b).
Hypothesis HInt : forall z, P (PInt z).
Hypothesis HFloat : forall f, P (PFloat f).
Hypothesis HStr : forall s, P (PStr s).
Hypothesis HList : forall l, Forall P l -> P (PList l).
Hypothesis HDict : forall d, Forall (fun kv => P (snd kv)) d -> P (PDict d).
Hypothesis HData :
  forall c f, Forall (fun kv => P (snd kv)) f -> P (PData c f).

Fixpoint pyval_nested_ind (v : pyval) : P v :=
  match v with
  | PNone => HNone
  | PBool b => HBool b
  | PInt z => HInt z
  | PFloat f => HFloat f
  | PStr s => HStr s
  | PList l =>
      HList l
        ((fix go (l : list pyval) : Forall P l :=
            match l with
            | [] => Forall_nil _
            | x :: r => Forall_cons x (pyval_nested_ind x) (go r)
            end) l)
  | PDict d =>
      HDict d
        ((fix go (d : list (str * pyval)) : Forall (fun kv => P (snd kv)) d :=
            match d with
            | [] => Forall_nil _
            | (k, x) :: r => Forall_cons (k, x) (pyval_nested_ind x) (go r)
            end) d)
  | PData c f =>
      HData c f
        ((fix go (d : list (str * pyval)) : Forall (fun kv => P (snd kv)) d :=
            match d with
            | [] => Forall_nil _
            | (k, x) :: r => Forall_cons (k, x) (pyval_nested_ind x) (go r)
            end) f)
  end.
End pyval_nested_induction.

(** ** Properties *)

(** *** Strings *)

Lemma str_eqb_eq (a b : str) : str_eqb a b = true <-> a = b.
Proof.
  revert b; induction a as [|x a IH]; intros [|y b]; simpl;
    try (split; [discriminate | congruence]); try tauto.
  rewrite andb_true_iff, N.eqb_eq, IH.
  split; [intros [-> ->]; reflexivity | intros H; inversion H; auto].
Qed.

Lemma str_eqb_refl (a : str) : str_eqb a a = true.
Proof. apply str_eqb_eq; reflexivity. Qed.

Lemma str_eqb_neq (a b : str) : str_eqb a b = false <-> a <> b.
Proof.
  rewrite <- str_eqb_eq. destruct (str_eqb a b); split; congruence.
Qed.

Lemma str_eqb_sym (a b : str) : str_eqb a b = str_eqb b a.
Proof.
  destruct (str_eqb a b) eqn:E.
  - apply str_eqb_eq in E; subst; symmetry; apply str_eqb_refl.
  - symmetry; apply str_eqb_neq; apply str_eqb_neq in E; congruence.
Qed.

(** *** The decoder never runs out of fuel *)

Lemma skip_ws_len (s : str) : (List.length (Json.skip_ws s) <= List.length s)%nat.
Proof.
  induction s as [|c r IH]; simpl; [lia|].
  destruct (Json.is_ws c); simpl; lia.
Qed.

Lemma scanstring_len_aux (n : nat) :
  forall s, (List.length s <= n)%nat ->
  forall acc x r, Json.scanstring s acc = Some (x, r) ->
                  (List.length r < List.length s)%nat.
Proof.
  induction n as [|n IH]; intros s Hn acc x r H;
    (destruct s as [|c s1]; [discriminate|]); [cbn [List.length] in Hn; lia|].
  cbn [Json.scanstring] in H.
  destruct (N.eqb c 34); [inversion H; subst; simpl; lia|].
  destruct (N.eqb c 92).
  - destruct s1 as [|e r1]; [discriminate|].
    destruct (N.eqb e 117).
    + destruct r1 as [|h1 [|h2 [|h3 [|h4 r2]]]]; try discriminate.
      destruct (Json.hex4 h1 h2 h3 h4) as [u1|]; [|discriminate].
      assert (Hr2 : forall a, Json.scanstring r2 a = Some (x, r) ->
                (List.length r < List.length (c :: e :: h1 :: h2 :: h3 :: h4 :: r2))%nat).
      { intros a Ha. apply IH in Ha; cbn [List.length] in *; lia. }
      destruct (in_range 55296 56319 u1); [|solve [eapply Hr2; eassumption]].
      destruct r2 as [|b [|u [|l1 [|l2 [|l3 [|l4 r3]]]]]]; try solve [eapply Hr2; eassumption].
      destruct (N.eqb b 92 && N.eqb u 117)%bool; [|solve [eapply Hr2; eassumption]].
      destruct (Json.hex4 l1 l2 l3 l4) as [u2|]; [|discriminate].
      destruct (in_range 56320 57343 u2); [|solve [eapply Hr2; eassumption]].
      apply IH in H; cbn [List.length] in *; lia.
    + destruct (Json.simple_escape e); [|discriminate].
      apply IH in H; cbn [List.length] in *; lia.
  - destruct (N.ltb c 32); [discriminate|].
    apply IH in H; cbn [List.length] in *; lia.
Qed.

Lemma scanstring_len (s acc x r : str) :
  Json.scanstring s acc = Some (x, r) -> (List.length r < List.length s)%nat.
Proof. apply (scanstring_len_aux (List.length s)). lia. Qed.

Lemma take_digits_len (s : str) :
  forall a n v k r, Json.take_digits s a n = (v, k, r) ->
                    (List.length r <= List.length s)%nat.
Proof.
  induction s as [|c s IH]; intros a n v k r H; simpl in H.
  - inversion H. simpl. lia.
  - destruct (Json.is_digit c).
    + apply IH in H. simpl. lia.
    + inversion H. simpl. lia.
Qed.

Lemma int_part_len (s : str) (v : N) (r : str) :
  Json.int_part s = Some (v, r) -> (List.length r < List.length s)%nat.
Proof.
  unfold Json.int_part. destruct s as [|c s]; [discriminate|].
  destruct (N.eqb c 48); [intros H; inversion H; subst; simpl; lia|].
  destruct (in_range 49 57 c); [|discriminate].
  destruct (Json.take_digits s (c - 48)%N 1) as [[v' k] r'] eqn:E.
  intros H. inversion H; subst. apply take_digits_len in E. simpl. lia.
Qed.

Lemma frac_part_len (s : str) (a m : N) (k : nat) (r : str) :
  Json.frac_part s a = Some (m, k, r) -> (List.length r <= List.length s)%nat.
Proof.
  unfold Json.frac_part. destruct s as [|c [|d s]]; try discriminate.
  destruct (N.eqb c 46 && Json.is_digit d)%bool; [|discriminate].
  intros H.
  assert (E : Json.take_digits (d :: s) a 0 = (m, k, r)) by congruence.
  apply take_digits_len in E. cbn [List.length] in *. lia.
Qed.

Lemma exp_part_len (s : str) (e : Z) (r : str) :
  Json.exp_part s = Some (e, r) -> (List.length r <= List.length s)%nat.
Proof.
  unfold Json.exp_part. destruct s as [|c s]; [discriminate|].
  destruct (N.eqb c 101 || N.eqb c 69)%bool; [|discriminate].
  destruct (match s with
            | [] => (false, s)
            | sg :: r' =>
                if N.eqb sg 45 then (true, r')
                else if N.eqb sg 43 then (false, r') else (false, s)
            end) as [neg r1] eqn:E1.
  assert (Hr1 : (List.length r1 <= List.length s)%nat).
  { destruct s as [|sg r']; [inversion E1; simpl; lia|].
    destruct (N.eqb sg 45); [inversion E1; simpl; lia|].
    destruct (N.eqb sg 43); inversion E1; simpl; lia. }
  destruct (Json.take_digits r1 0 0) as [[v k] r2] eqn:E2.
  destruct k; [discriminate|]. intros H. inversion H; subst.
  apply take_digits_len in E2. simpl. lia.
Qed.

Lemma scan_number_len (s : str) (v : pyval) (r : str) :
  Json.scan_number s = Some (v, r) -> (List.length r < List.length s)%nat.
Proof.
  unfold Json.scan_number.
  destruct (match s with
            | [] => (false, s)
            | c :: r0 => if N.eqb c 45 then (true, r0) else (false, s)
            end) as [neg s1] eqn:E1.
  assert (Hs1 : (List.length s1 <= List.length s)%nat).
  { destruct s as [|c r0]; [inversion E1; simpl; lia|].
    destruct (N.eqb c 45); inversion E1; simpl; lia. }
  destruct (Json.int_part s1) as [[i s2]|] eqn:E2; [|discriminate].
  apply int_part_len in E2.
  destruct (Json.frac_part s2 i) as [[[m k] s3]|] eqn:E3.
  - apply frac_part_len in E3.
    destruct (Json.exp_part s3) as [[e s4]|] eqn:E4.
    + apply exp_part_len in E4. intros H. inversion H; subst. lia.
    + intros H. inversion H; subst. lia.
  - destruct (Json.exp_part s2) as [[e s3]|] eqn:E4.
    + apply exp_part_len in E4. intros H. inversion H; subst. lia.
    + intros H. inversion H; subst. lia.
Qed.

Lemma strip_prefix_len (p : str) :
  forall s r, Json.strip_prefix p s = Some r ->
              (List.length r + List.length p = List.length s)%nat.
Proof.
  induction p as [|a p IH]; intros s r H; simpl in H.
  - inversion H. simpl. lia.
  - destruct s as [|b s]; [discriminate|].
    destruct (N.eqb a b); [|discriminate]. apply IH in H. simpl. lia.
Qed.

Lemma scan_len (f : nat) :
  (forall s v r, Json.scan_once f s = Some (v, r) ->
                 (List.length r < List.length s)%nat)
  /\ (forall s acc v r, Json.object_members f s acc = Some (v, r) ->
                        (List.length r < List.length s)%nat)
  /\ (forall s acc v r, Json.array_elements f s acc = Some (v, r) ->
                        (List.length r < List.length s)%nat).
Proof.
  induction f as [|f (IHs & IHo & IHa)];
    [repeat split; intros; discriminate|].
  split; [|split].
  - intros s v r H. cbn [Json.scan_once] in H.
    destruct s as [|c s1]; [discriminate|].
    destruct (N.eqb c 34).
    { destruct (Json.scanstring s1 []) as [[x r']|] eqn:E; [|discriminate].
      inversion H; subst. apply scanstring_len in E. cbn [List.length]. lia. }
    destruct (N.eqb c 123).
    { pose proof (skip_ws_len s1) as Hw.
      destruct (Json.skip_ws s1) as [|c' r'] eqn:E; [discriminate|].
      destruct (N.eqb c' 125).
      - inversion H; subst. cbn [List.length] in *. lia.
      - apply IHo in H. cbn [List.length] in *. lia. }
    destruct (N.eqb c 91).
    { pose proof (skip_ws_len s1) as Hw.
      destruct (Json.skip_ws s1) as [|c' r'] eqn:E; [discriminate|].
      destruct (N.eqb c' 93).
      - inversion H; subst. cbn [List.length] in *. lia.
      - apply IHa in H. cbn [List.length] in *. lia. }
    repeat match type of H with
           | match Json.strip_prefix ?p ?s with _ => _ end = _ =>
               let E := fresh "E" in
               destruct (Json.strip_prefix p s) eqn:E;
               [apply strip_prefix_len in E; inversion H; subst;
                cbn in E; cbn [List.length]; lia|]
           end.
    apply scan_number_len in H. exact H.
  - intros s acc v r H. cbn [Json.object_members] in H.
    destruct s as [|q s1]; [discriminate|].
    destruct (N.eqb q 34); [|discriminate].
    destruct (Json.scanstring s1 []) as [[key r1]|] eqn:E1; [|discriminate].
    apply scanstring_len in E1.
    pose proof (skip_ws_len r1) as Hw1.
    destruct (Json.skip_ws r1) as [|colon r2]; [discriminate|].
    destruct (N.eqb colon 58); [|discriminate].
    pose proof (skip_ws_len r2) as Hw2.
    destruct (Json.scan_once f (Json.skip_ws r2)) as [[x r3]|] eqn:E3;
      [|discriminate].
    apply IHs in E3.
    pose proof (skip_ws_len r3) as Hw3.
    destruct (Json.skip_ws r3) as [|d r4]; [discriminate|].
    destruct (N.eqb d 125).
    + inversion H; subst. cbn [List.length] in *. lia.
    + destruct (N.eqb d 44); [|discriminate].
      pose proof (skip_ws_len r4) as Hw4.
      apply IHo in H. cbn [List.length] in *. lia.
  - intros s acc v r H. cbn [Json.array_elements] in H.
    destruct (Json.scan_once f s) as [[x r1]|] eqn:E1; [|discriminate].
    apply IHs in E1.
    pose proof (skip_ws_len r1) as Hw1.
    destruct (Json.skip_ws r1) as [|d r2]; [discriminate|].
    destruct (N.eqb d 93).
    + inversion H; subst. cbn [List.length] in *. lia.
    + destruct (N.eqb d 44); [|discriminate].
      pose proof (skip_ws_len r2) as Hw2.
      apply IHa in H. cbn [List.length] in *. lia.
Qed.

(** Above the bound one more unit of fuel changes nothing. *)
Lemma scan_fuel_step (f : nat) :
  (forall s, (2 * List.length s + 1 <= f)%nat ->
             Json.scan_once f s = Json.scan_once (S f) s)
  /\ (forall s acc, (2 * List.length s + 2 <= f)%nat ->
                    Json.object_members f s acc = Json.object_members (S f) s acc)
  /\ (forall s acc, (2 * List.length s + 2 <= f)%nat ->
                    Json.array_elements f s acc = Json.array_elements (S f) s acc).
Proof.
  induction f as [|f (IHs & IHo & IHa)]; [repeat split; intros; lia|].
  split; [|split].
  - intros s Hs. cbn [Json.scan_once].
    destruct s as [|c s1]; [reflexivity|]. cbn [List.length] in Hs.
    destruct (N.eqb c 34); [reflexivity|].
    pose proof (skip_ws_len s1) as Hw.
    destruct (N.eqb c 123).
    { destruct (Json.skip_ws s1) as [|c' r']; [reflexivity|].
      destruct (N.eqb c' 125); [reflexivity|].
      apply IHo. cbn [List.length] in *. lia. }
    destruct (N.eqb c 91); [|reflexivity].
    destruct (Json.skip_ws s1) as [|c' r']; [reflexivity|].
    destruct (N.eqb c' 93); [reflexivity|].
    apply IHa. cbn [List.length] in *. lia.
  - intros s acc Hs. cbn [Json.object_members].
    destruct s as [|q s1]; [reflexivity|]. cbn [List.length] in Hs.
    destruct (N.eqb q 34); [|reflexivity].
    destruct (Json.scanstring s1 []) as [[key r1]|] eqn:E1; [|reflexivity].
    apply scanstring_len in E1.
    pose proof (skip_ws_len r1) as Hw1.
    destruct (Json.skip_ws r1) as [|colon r2]; [reflexivity|].
    destruct (N.eqb colon 58); [|reflexivity].
    pose proof (skip_ws_len r2) as Hw2. cbn [List.length] in *.
    rewrite <- IHs by lia.
    destruct (Json.scan_once f (Json.skip_ws r2)) as [[x r3]|] eqn:E3;
      [|reflexivity].
    apply (proj1 (scan_len f)) in E3.
    pose proof (skip_ws_len r3) as Hw3.
    destruct (Json.skip_ws r3) as [|d r4]; [reflexivity|].
    destruct (N.eqb d 125); [reflexivity|].
    destruct (N.eqb d 44); [|reflexivity].
    pose proof (skip_ws_len r4) as Hw4. cbn [List.length] in *.
    apply IHo. lia.
  - intros s acc Hs. cbn [Json.array_elements].
    rewrite <- IHs by lia.
    destruct (Json.scan_once f s) as [[x r1]|] eqn:E1; [|reflexivity].
    apply (proj1 (scan_len f)) in E1.
    pose proof (skip_ws_len r1) as Hw1.
    destruct (Json.skip_ws r1) as [|d r2]; [reflexivity|].
    destruct (N.eqb d 93); [reflexivity|].
    destruct (N.eqb d 44); [|reflexivity].
    pose proof (skip_ws_len r2) as Hw2. cbn [List.length] in *.
    apply IHa. lia.
Qed.

(** The fuel [json.loads] gives its scanner is enough: with any larger
    fuel the scanner answers the same. *)
Lemma scan_once_fuel (s : str) (f : nat) :
  (2 * List.length s + 1 <= f)%nat ->
  Json.scan_once f s = Json.scan_once (2 * List.length s + 1) s.
Proof.
  intros H. induction H as [|f H IH]; [reflexivity|].
  rewrite <- IH. symmetry. apply (proj1 (scan_fuel_step f)). exact H.
Qed.

Lemma loads_fuel_enough (s : str) (fuel : nat) :
  (2 * List.length s + 2 <= fuel)%nat ->
  Json.loads_with fuel s = Json.loads s.
Proof.
  intros H. unfold Json.loads, Json.loads_with.
  pose proof (skip_ws_len s) as Hw.
  rewrite (scan_once_fuel (Json.skip_ws s) fuel) by lia.
  rewrite (scan_once_fuel (Json.skip_ws s) (2 * List.length s + 2)) by lia.
  reflexivity.
Qed.

(** *** The frame splitter *)

Lemma find_msg_unfold (fuel : nat) (data : str) (L start : Z) :
  find_msg (S fuel) data L start =
  match Json.loads (probe data L start) with
  | Some PNone => find_msg fuel data L start
  | Some msg => Returned (msg, probe data L start)
  | None => find_msg fuel data L (start + len (probe data L start))
  end.
Proof. reflexivity. Qed.

Lemma parse_loop_unfold (fuel : nat) (data : str) (L : Z) (result : list pyval) :
  parse_loop (S fuel) data L result =
  if L <? len data then
    match str_index data L with
    | None => Raised IndexError
    | Some c =>
        if N.eqb c LBRACE then
          '(msg, substr) <- find_msg fuel data L L ;;
          parse_loop fuel data (L + len substr) (result ++ [msg])
        else Raised AssertionError
    end
  else Returned result.
Proof. reflexivity. Qed.

(** An answer of the inner loop does not depend on the fuel left over. *)
Lemma find_msg_mono (fuel : nat) :
  forall (data : str) (L start : Z) (o : outcome (pyval * str)),
    find_msg fuel data L start = o -> o <> OutOfFuel ->
    forall fuel', (fuel <= fuel')%nat -> find_msg fuel' data L start = o.
Proof.
  induction fuel as [|f IH]; intros data L start o H Ho fuel' Hle.
  - simpl in H; congruence.
  - destruct fuel' as [|f']; [lia|].
    rewrite find_msg_unfold in *.
    destruct (Json.loads (probe data L start)) as [[]|]; auto;
      eapply IH; eauto; lia.
Qed.

Lemma parse_loop_mono (fuel : nat) :
  forall (data : str) (L : Z) (result : list pyval) (o : outcome (list pyval)),
    parse_loop fuel data L result = o -> o <> OutOfFuel ->
    forall fuel', (fuel <= fuel')%nat -> parse_loop fuel' data L result = o.
Proof.
  induction fuel as [|f IH]; intros data L result o H Ho fuel' Hle.
  - simpl in H; congruence.
  - destruct fuel' as [|f']; [lia|].
    simpl in *.
    destruct (L <? len data); auto.
    destruct (str_index data L) as [c|]; auto.
    destruct (N.eqb c LBRACE); auto.
    destruct (find_msg f data L L) as [[msg substr]| |] eqn:E.
    + rewrite (find_msg_mono f data L L _ E) by (congruence || lia).
      simpl in *. eapply IH; eauto; lia.
    + rewrite (find_msg_mono f data L L _ E) by (congruence || lia).
      exact H.
    + simpl in H; congruence.
Qed.

Lemma parse_gspro_data_mono (fuel fuel' : nat) (data : bytes)
    (o : outcome (list pyval)) :
  parse_gspro_data fuel data = o -> o <> OutOfFuel ->
  (fuel <= fuel')%nat -> parse_gspro_data fuel' data = o.
Proof.
  unfold parse_gspro_data. destruct (utf8_decode data); auto.
  intros; eapply parse_loop_mono; eauto.
Qed.

(** Once a round fails on the empty text, every later round is the same
    round. *)
Lemma never_found_sound (n : nat) :
  forall (data : str) (L start : Z),
    never_found n data L start = true ->
    forall fuel, find_msg fuel data L start = OutOfFuel.
Proof.
  induction n as [|n IH]; intros data L start H fuel; simpl in H;
    destruct (Json.loads (probe data L start)) eqn:E; try discriminate.
  - apply Z.eqb_eq in H.
    induction fuel as [|f IHf]; [reflexivity|].
    rewrite find_msg_unfold, E, H, Z.add_0_r. exact IHf.
  - destruct fuel as [|f]; [reflexivity|].
    rewrite find_msg_unfold, E. apply IH; exact H.
Qed.

Lemma hangs_sound (n : nat) :
  forall (data : str) (L : Z),
    hangs n data L = true ->
    forall fuel result, parse_loop fuel data L result = OutOfFuel.
Proof.
  induction n as [|n IH]; intros data L H fuel result; [discriminate|].
  simpl in H. apply andb_true_iff in H as [H Hrun].
  apply andb_true_iff in H as [Hlt Hc].
  destruct fuel as [|f]; [reflexivity|]. simpl. rewrite Hlt.
  destruct (str_index data L) as [c|]; [|discriminate]. rewrite Hc.
  apply orb_true_iff in Hrun as [Hnf|Hnext].
  - rewrite (never_found_sound _ _ _ _ Hnf). reflexivity.
  - destruct (find_msg n data L L) as [[msg substr]| |] eqn:E; try discriminate.
    destruct (find_msg f data L L) as [[msg' substr']| |] eqn:E'; try reflexivity.
    + destruct (Nat.le_ge_cases n f) as [Hle|Hle].
      * rewrite (find_msg_mono n data L L _ E) in E' by (congruence || lia).
        inversion E'; subst. simpl. apply IH; exact Hnext.
      * rewrite (find_msg_mono f data L L _ E') in E by (congruence || lia).
        inversion E; subst. simpl. apply IH; exact Hnext.
    + destruct (Nat.le_ge_cases n f) as [Hle|Hle].
      * rewrite (find_msg_mono n data L L _ E) in E' by (congruence || lia).
        discriminate.
      * rewrite (find_msg_mono f data L L _ E') in E by (congruence || lia).
        discriminate.
Qed.

Lemma parse_gspro_data_hangs (n : nat) (data : bytes) (s : str) :
  utf8_decode data = Some s -> hangs n s 0 = true ->
  forall fuel, parse_gspro_data fuel data = OutOfFuel.
Proof.
  intros Hd Hh fuel. unfold parse_gspro_data. rewrite Hd.
  apply (hangs_sound n); exact Hh.
Qed.

(** The example of the docstring and of [test_resp]: the four replies are
    returned, in order, the second with its nested [Player] whose [Club] is
    [DR]. *)
Lemma docstring_example (fuel : nat) :
  (5 <= fuel)%nat ->
  parse_gspro_data fuel four_messages = Returned four_messages_decoded.
Proof.
  intros H.
  apply (parse_gspro_data_mono 5);
    [vm_compute; reflexivity | discriminate | exact H].
Qed.

(** C1, at an input on which the code fails: the buffer holds one
    well-formed JSON object, whose fields [Player] and [Course] are both
    nested objects, and [parse_gspro_data] never returns on it.  After the
    second failed attempt [start] is advanced by the length of the whole
    text tried, beyond the end of the buffer, so [find] answers [-1] and
    every later round tries the empty text. *)
Theorem two_nested_objects_never_return :
  is_json_object two_nested_objects = true
  /\ forall fuel, parse_gspro_data fuel two_nested_objects = OutOfFuel.
Proof.
  split.
  - vm_compute. reflexivity.
  - apply (parse_gspro_data_hangs 4 _
             (qlit "{'Code':201,'Message':'GSPro Player Information','Player':{'Handed':'RH','Club':'DR','DistanceToTarget':380.0},'Course':{'Hole':1}}"));
      vm_compute; reflexivity.
Qed.

(** C3, at an input on which the code fails: after the complete first
    reply no closing brace ends a text that decodes, and
    [parse_gspro_data] neither returns nor raises: no report of an
    incomplete frame, and the first reply is never handed over. *)
Theorem truncated_second_object_never_returns :
  forall fuel, parse_gspro_data fuel truncated_second_object = OutOfFuel.
Proof.
  apply (parse_gspro_data_hangs 4 _
           (qlit "{'Code':200,'Message':'Ball Data received','Player':null}{'Code':201,'Message':'GSPro Player Information','Player':{'Handed':'RH'"));
    vm_compute; reflexivity.
Qed.

Lemma clamp_inside (n i : Z) : 0 <= i <= n -> clamp n i = i.
Proof. intros H. unfold clamp. destruct (i <? 0) eqn:E; lia. Qed.



Lemma no_frame_at_sound (data : str) (lo : nat) :
  no_frame_at data lo = true ->
  forall k, Json.loads (firstn k (skipn lo data)) = None.
Proof.
  unfold no_frame_at. intros H k. rewrite forallb_forall in H.
  destruct (Nat.le_gt_cases k (List.length data - lo)) as [Hk|Hk].
  - specialize (H k). rewrite in_seq in H.
    destruct (Json.loads (firstn k (skipn lo data))); auto.
    discriminate H; lia.
  - rewrite firstn_all2 by (rewrite length_skipn; lia).
    specialize (H (List.length data - lo)%nat). rewrite in_seq in H.
    rewrite firstn_all2 in H by (rewrite length_skipn; lia).
    destruct (Json.loads (skipn lo data)); auto.
    discriminate H; lia.
Qed.

(** *** Frames inside a buffer *)

Lemma len_app {A : Type} (a b : list A) : len (a ++ b) = len a + len b.
Proof. unfold len. rewrite length_app. lia. Qed.

Lemma len_nil {A : Type} : len (@nil A) = 0.
Proof. reflexivity. Qed.

Lemma len_nonneg {A : Type} (a : list A) : 0 <= len a.
Proof. unfold len. lia. Qed.

Lemma find_aux_shift (c : char) (s : str) :
  forall p q, 0 <= q ->
    find_aux c s (p + q)
    = if find_aux c s q <? 0 then -1 else p + find_aux c s q.
Proof.
  induction s as [|x r IH]; intros p q Hq; simpl; [reflexivity|].
  destruct (N.eqb x c).
  - replace (q <? 0) with false by (symmetry; apply Z.ltb_ge; lia).
    reflexivity.
  - rewrite <- Z.add_assoc. apply IH. lia.
Qed.

Lemma find_aux_bounds (c : char) (s : str) :
  forall q, 0 <= q ->
    find_aux c s q = -1 \/ q <= find_aux c s q < q + len s.
Proof.
  induction s as [|x r IH]; intros q Hq; simpl; [left; reflexivity|].
  unfold len. simpl List.length. destruct (N.eqb x c).
  - right. lia.
  - destruct (IH (q + 1)) as [H|H]; [lia | left; exact H |].
    right. unfold len in H. lia.
Qed.

Lemma find_aux_app (c : char) (s t : str) :
  forall q, 0 <= q -> 0 <= find_aux c s q ->
    find_aux c (s ++ t) q = find_aux c s q.
Proof.
  induction s as [|x r IH]; intros q Hq H; simpl in *; [lia|].
  destruct (N.eqb x c); [reflexivity|]. apply IH; [lia | exact H].
Qed.

Lemma str_find_nonneg (s : str) (c : char) (k : Z) :
  0 <= k -> str_find s c k = find_aux c (skipn (Z.to_nat k) s) k.
Proof.
  intros Hk. unfold str_find.
  replace (k <? 0) with false by (symmetry; apply Z.ltb_ge; lia).
  reflexivity.
Qed.

Lemma str_find_bounds (s : str) (c : char) (k : Z) :
  0 <= k -> 0 <= str_find s c k -> k <= str_find s c k < len s.
Proof.
  intros Hk H. rewrite str_find_nonneg in * by exact Hk.
  destruct (find_aux_bounds c (skipn (Z.to_nat k) s) k Hk) as [E|E]; [lia|].
  unfold len in *. rewrite length_skipn in E. lia.
Qed.

(** Searching inside a frame gives the same brace wherever the frame lies
    in the buffer. *)
Lemma str_find_middle (pre o post : str) (c : char) (k : Z) :
  0 <= k -> 0 <= str_find o c k ->
  str_find (pre ++ o ++ post) c (len pre + k) = len pre + str_find o c k.
Proof.
  intros Hk H. pose proof (str_find_bounds o c k Hk H) as Hb.
  pose proof (len_nonneg pre) as Hp.
  rewrite str_find_nonneg by lia. rewrite str_find_nonneg in * by exact Hk.
  replace (Z.to_nat (len pre + k)) with (List.length pre + Z.to_nat k)%nat
    by (unfold len; lia).
  rewrite skipn_app.
  rewrite skipn_all2 by lia.
  replace (List.length pre + Z.to_nat k - List.length pre)%nat
    with (Z.to_nat k) by lia.
  rewrite skipn_app.
  replace (Z.to_nat k - List.length o)%nat with 0%nat by (unfold len in Hb; lia).
  simpl app. rewrite find_aux_shift by exact Hk.
  rewrite find_aux_app by assumption.
  replace (find_aux c (skipn (Z.to_nat k) o) k <? 0) with false
    by (symmetry; apply Z.ltb_ge; exact H).
  reflexivity.
Qed.

Lemma slice_middle (pre o post : str) (j : Z) :
  0 <= j <= len o ->
  slice (pre ++ o ++ post) (len pre) (len pre + j) = firstn (Z.to_nat j) o.
Proof.
  intros Hj. pose proof (len_nonneg pre) as Hp.
  pose proof (len_nonneg post) as Hq.
  unfold slice. rewrite !len_app.
  rewrite !clamp_inside by lia.
  replace (len pre + j - len pre) with j by lia.
  replace (Z.to_nat (len pre)) with (List.length pre) by (unfold len; lia).
  rewrite skipn_app, skipn_all, Nat.sub_diag. simpl.
  rewrite firstn_app.
  replace (Z.to_nat j - List.length o)%nat with 0%nat by (unfold len in Hj; lia).
  simpl. apply app_nil_r.
Qed.

Lemma slice_whole_prefix (o : str) (j : Z) :
  0 <= j <= len o -> slice o 0 j = firstn (Z.to_nat j) o.
Proof.
  intros Hj. pose proof (slice_middle [] o [] j Hj) as H.
  simpl in H. rewrite app_nil_r in H. exact H.
Qed.

Lemma str_index_middle (pre post : str) (c : char) (r : str) :
  str_index (pre ++ (c :: r) ++ post) (len pre) = Some c.
Proof.
  unfold str_index. pose proof (len_nonneg pre) as Hp.
  replace (len pre <? 0) with false by (symmetry; apply Z.ltb_ge; lia).
  replace (Z.to_nat (len pre)) with (List.length pre) by (unfold len; lia).
  rewrite nth_error_app2 by lia. rewrite Nat.sub_diag. reflexivity.
Qed.

(** What [json.loads] makes of a text that opens with a brace is a
    dict. *)
Lemma object_members_dict (f : nat) :
  forall s acc v r,
    Json.object_members f s acc = Some (v, r) -> exists d, v = PDict d.
Proof.
  induction f as [|f IH]; intros s acc v r H; [discriminate|].
  cbn [Json.object_members] in H.
  repeat match type of H with
         | match ?x with _ => _ end = _ => destruct x eqn:?; try discriminate
         | (if ?x then _ else _) = _ => destruct x eqn:?; try discriminate
         | (let '(_, _) := ?x in _) = _ => destruct x eqn:?
         end.
  - inversion H. eauto.
  - eapply IH; eauto.
Qed.

Lemma loads_object (o : str) (v : pyval) :
  hd_error o = Some LBRACE -> Json.loads o = Some v -> exists d, v = PDict d.
Proof.
  destruct o as [|c r]; [discriminate|]. simpl hd_error. intros Hc.
  inversion Hc; subst c. unfold Json.loads, Json.loads_with, LBRACE.
  cbv beta iota.
  change (Json.skip_ws (123%N :: r)) with (123%N :: r).
  match goal with
  | |- context [Json.scan_once ?n _] => destruct n as [|f]; [discriminate|]
  end.
  cbn [Json.scan_once]. change (N.eqb 123 34) with false.
  change (N.eqb 123 123) with true. cbv beta iota.
  destruct (Json.skip_ws r) as [|c' r'] eqn:Er; [discriminate|].
  destruct (N.eqb c' 125).
  - destruct (Json.skip_ws r'); [|discriminate]. intros H. inversion H. eauto.
  - destruct (Json.object_members f (c' :: r') []) as [[v' rest]|] eqn:Em;
      [|discriminate].
    destruct (Json.skip_ws rest); [|discriminate]. intros H. inversion H; subst.
    eapply object_members_dict; eauto.
Qed.

(** The inner loop on an easy frame, anywhere in a buffer: it answers
    the decoded object and the text of the frame. *)
Lemma find_msg_easy_frame (o : str) (v : pyval) :
  easy_frame o v ->
  forall (pre post : str) (fuel : nat),
    (2 <= fuel)%nat ->
    find_msg fuel (pre ++ o ++ post) (len pre) (len pre) = Returned (v, o).
Proof.
  intros (Hhd & Hloads & Hclose) pre post fuel Hfuel.
  apply (find_msg_mono 2); [|discriminate | exact Hfuel].
  destruct (loads_object o v Hhd Hloads) as [d ->].
  assert (Hlen : 0 < len o).
  { destruct o; [discriminate|]. unfold len. simpl. lia. }
  unfold first_close in Hclose.
  assert (Hwhole : forall i, i + 1 = len o ->
            slice (pre ++ o ++ post) (len pre) (len pre + i + 1) = o).
  { intros i Hi. rewrite <- Z.add_assoc, slice_middle by lia.
    rewrite Hi. unfold len. rewrite Nat2Z.id. apply firstn_all. }
  destruct Hclose as [Hflat|[Hfail Hsecond]].
  - assert (Hp : probe (pre ++ o ++ post) (len pre) (len pre) = o).
    { unfold probe. replace (len pre) with (len pre + 0) at 2 by lia.
      rewrite str_find_middle by lia. apply Hwhole. exact Hflat. }
    rewrite find_msg_unfold, Hp, Hloads. reflexivity.
  - assert (H1 : 0 <= str_find o RBRACE 0).
    { destruct (Z.le_gt_cases 0 (str_find o RBRACE 0)) as [H|H]; [exact H|].
      exfalso.
      assert (E : str_find o RBRACE 0 = -1).
      { rewrite str_find_nonneg in * by lia.
        destruct (find_aux_bounds RBRACE (skipn (Z.to_nat 0) o) 0); lia. }
      rewrite E in Hsecond. change (-1 + 1) with 0 in Hsecond.
      rewrite E in Hsecond. lia. }
    pose proof (str_find_bounds o RBRACE 0 (Z.le_refl 0) H1) as Hb1.
    assert (H2 : 0 <= str_find o RBRACE (str_find o RBRACE 0 + 1)) by lia.
    assert (Hp1 : probe (pre ++ o ++ post) (len pre) (len pre)
                  = firstn (Z.to_nat (str_find o RBRACE 0 + 1)) o).
    { unfold probe. replace (len pre) with (len pre + 0) at 2 by lia.
      rewrite str_find_middle by lia.
      rewrite <- Z.add_assoc. apply slice_middle. lia. }
    assert (Hp2 : probe (pre ++ o ++ post) (len pre)
                    (len pre + (str_find o RBRACE 0 + 1)) = o).
    { unfold probe. rewrite str_find_middle by lia.
      apply Hwhole. exact Hsecond. }
    rewrite slice_whole_prefix in Hfail by lia.
    rewrite find_msg_unfold, Hp1, Hfail.
    replace (len (firstn (Z.to_nat (str_find o RBRACE 0 + 1)) o))
      with (str_find o RBRACE 0 + 1)
      by (unfold len in *; rewrite length_firstn; lia).
    rewrite find_msg_unfold, Hp2, Hloads. reflexivity.
Qed.

(** The outer loop runs through easy frames one after the other: behind
    them the cursor stands at their end, and the result has grown by their
    decoded objects, in order. *)
Lemma parse_loop_easy_frames (objs : list str) (vals : list pyval) :
  Forall2 easy_frame objs vals ->
  forall (pre post : str) (acc : list pyval) (fuel : nat),
    (2 <= fuel)%nat ->
    parse_loop (List.length objs + fuel) (pre ++ List.concat objs ++ post)
      (len pre) acc
    = parse_loop fuel (pre ++ List.concat objs ++ post)
        (len pre + len (List.concat objs)) (acc ++ vals).
Proof.
  induction 1 as [|o v objs vals Ho Hrest IH]; intros pre post acc fuel Hfuel.
  - simpl. rewrite app_nil_r, Z.add_0_r. reflexivity.
  - assert (Hlen : 0 < len o).
    { destruct Ho as (Hhd & _). destruct o; [discriminate|].
      unfold len. simpl. lia. }
    pose proof (len_nonneg pre) as Hp.
    pose proof (len_nonneg (List.concat objs ++ post)) as Hq.
    simpl List.length. simpl List.concat. rewrite <- !app_assoc.
    cbn [Nat.add]. rewrite parse_loop_unfold.
    replace (len pre <? len (pre ++ o ++ List.concat objs ++ post)) with true
      by (symmetry; apply Z.ltb_lt; unfold len in *; rewrite !length_app; lia).
    rewrite (find_msg_easy_frame o v Ho) by lia.
    destruct Ho as (Hhd & _).
    destruct o as [|c r]; [discriminate|]. simpl in Hhd. inversion Hhd; subst c.
    rewrite str_index_middle. change (N.eqb LBRACE LBRACE) with true.
    cbv beta iota. cbn [bind].
    specialize (IH (pre ++ LBRACE :: r) post (acc ++ [v]) fuel Hfuel).
    rewrite <- !app_assoc in IH. rewrite len_app in IH.
    rewrite IH. rewrite len_app. rewrite Z.add_assoc. reflexivity.
Qed.


(** The four replies of the docstring are easy frames: three without a
    nested object, and one whose nested [Player] comes last. *)
Example four_messages_are_easy_frames :
  Forall2 easy_frame
    [qlit "{'Code':200,'Message':'Ball Data received','Player':null}";
     qlit "{'Code':201,'Message':'GSPro Player Information','Player':{'Handed':'RH','Club':'DR','DistanceToTarget':380.0}}";
     qlit "{'Code':202,'Message':'GSPro ready','Player':null}";
     qlit "{'Code':203,'Message':'GSPro round ended','Player':null}"]
    four_messages_decoded.
Proof.
  constructor; [|constructor; [|constructor; [|constructor; [|constructor]]]].
  - split; [reflexivity|]. split; [vm_compute; reflexivity|].
    left. vm_compute. reflexivity.
  - split; [reflexivity|]. split; [vm_compute; reflexivity|].
    right. split; vm_compute; reflexivity.
  - split; [reflexivity|]. split; [vm_compute; reflexivity|].
    left. vm_compute. reflexivity.
  - split; [reflexivity|]. split; [vm_compute; reflexivity|].
    left. vm_compute. reflexivity.
Qed.


(** The truncated buffer is of that kind: one easy frame, then a tail no
    prefix of which decodes. *)
Example truncated_second_object_has_truncated_tail :
  exists tail,
    utf8_decode truncated_second_object
    = Some (List.concat
              [qlit "{'Code':200,'Message':'Ball Data received','Player':null}"]
            ++ tail)
    /\ hd_error tail = Some LBRACE
    /\ forall k, Json.loads (firstn k tail) = None.
Proof.
  exists (qlit "{'Code':201,'Message':'GSPro Player Information','Player':{'Handed':'RH'").
  split; [vm_compute; reflexivity|]. split; [reflexivity|].
  apply (no_frame_at_sound _ 0). vm_compute. reflexivity.
Qed.

(** *** The check of the opening brace *)

Lemma to_N_x7b (b : byte) : Byte.to_N b = 123%N -> b = x7b.
Proof.
  intros H. pose proof (Byte.of_to_N b) as Hb. rewrite H in Hb.
  vm_compute in Hb. congruence.
Qed.

(** The first character of a decoded buffer is an opening brace only if
    the first byte is. *)
Lemma utf8_decode_head (b : byte) (rest : bytes) (s : str) :
  utf8_decode (b :: rest) = Some s -> b <> x7b ->
  exists c r, s = c :: r /\ c <> LBRACE.
Proof.
  intros H Hb. simpl in H. unfold LBRACE.
  destruct (N.ltb (Byte.to_N b) 128) eqn:E1.
  { destruct (utf8_decode rest); [|discriminate]. inversion H; subst.
    do 2 eexists; split; [reflexivity|]. intros Hc. apply Hb, to_N_x7b, Hc. }
  apply N.ltb_ge in E1.
  destruct (in_range 194 223 (Byte.to_N b)) eqn:E2.
  { destruct rest as [|b1 r1]; [discriminate|].
    destruct (is_cont b1); [|discriminate].
    destruct (utf8_decode r1); [|discriminate]. inversion H; subst.
    unfold in_range in E2. apply andb_true_iff in E2 as [E2 _].
    apply N.leb_le in E2.
    do 2 eexists; split; [reflexivity|]. lia. }
  destruct (in_range 224 239 (Byte.to_N b)) eqn:E3.
  { destruct rest as [|b1 [|b2 r2]]; try discriminate.
    destruct (in_range _ _ (Byte.to_N b1) && is_cont b2)%bool eqn:E4;
      [|discriminate].
    destruct (utf8_decode r2); [|discriminate]. inversion H; subst.
    unfold in_range in E3, E4.
    apply andb_true_iff in E3 as [E3 _]. apply N.leb_le in E3.
    apply andb_true_iff in E4 as [E4 _].
    apply andb_true_iff in E4 as [E4 _]. apply N.leb_le in E4.
    unfold low6.
    do 2 eexists; split; [reflexivity|].
    destruct (N.eqb (Byte.to_N b) 224) eqn:E5.
    - apply N.eqb_eq in E5. lia.
    - apply N.eqb_neq in E5. lia. }
  destruct (in_range 240 244 (Byte.to_N b)) eqn:E6; [|discriminate].
  destruct rest as [|b1 [|b2 [|b3 r3]]]; try discriminate.
  destruct (in_range _ _ (Byte.to_N b1) && is_cont b2 && is_cont b3)%bool eqn:E4;
    [|discriminate].
  destruct (utf8_decode r3); [|discriminate]. inversion H; subst.
  unfold in_range in E6, E4.
  apply andb_true_iff in E6 as [E6 _]. apply N.leb_le in E6.
  apply andb_true_iff in E4 as [E4 _].
  apply andb_true_iff in E4 as [E4 _].
  apply andb_true_iff in E4 as [E4 _]. apply N.leb_le in E4.
  unfold low6.
  do 2 eexists; split; [reflexivity|].
  destruct (N.eqb (Byte.to_N b) 240) eqn:E5.
  - apply N.eqb_eq in E5. lia.
  - apply N.eqb_neq in E5. lia.
Qed.

(** At any position of the cursor inside the buffer, a character that is
    not an opening brace fails the [assert]. *)
Lemma assert_fails_at_cursor (fuel : nat) (data : str) (L : Z)
    (result : list pyval) :
  0 <= L < len data ->
  str_index data L <> Some LBRACE ->
  parse_loop (S fuel) data L result = Raised AssertionError.
Proof.
  intros HL Hc. rewrite parse_loop_unfold.
  replace (L <? len data) with true by (symmetry; apply Z.ltb_lt; lia).
  destruct (str_index data L) as [c|] eqn:E.
  - destruct (N.eqb c LBRACE) eqn:Ec; [|reflexivity].
    apply N.eqb_eq in Ec. subst. congruence.
  - exfalso. unfold str_index in E.
    replace (L <? 0) with false in E by (symmetry; apply Z.ltb_ge; lia).
    apply nth_error_None in E. unfold len in HL. lia.
Qed.

(** C8, as amended.  [parse_gspro_data] decodes the whole buffer before
    it looks at any frame, so what it raises depends on whether the buffer
    is UTF-8 text.  On a buffer that is text and whose first byte is not an
    opening brace the [assert] fails: AssertionError, the code's
    invalid-frame error.  At any later position of the cursor a character
    that is not an opening brace fails the same [assert]; so does the whole
    call on a buffer in which such a character follows completed frames,
    and the messages gathered so far are not returned.  On a buffer that is
    not UTF-8 text the call raises UnicodeDecodeError, whatever its first
    byte is and whatever frames precede the bytes that do not decode.  In
    no case does a buffer whose first byte is not an opening brace yield a
    result. *)
Theorem invalid_frame_raises :
  (forall (fuel : nat) (b : byte) (rest : bytes) (s : str),
      b <> x7b ->
      utf8_decode (b :: rest) = Some s ->
      parse_gspro_data (S fuel) (b :: rest) = Raised AssertionError)
  /\ (forall (fuel : nat) (data : str) (L : Z) (result : list pyval),
         0 <= L < len data ->
         str_index data L <> Some LBRACE ->
         parse_loop (S fuel) data L result = Raised AssertionError)
  /\ (forall (objs : list str) (vals : list pyval) (c : char) (rest : str)
             (data : bytes) (fuel : nat),
         Forall2 easy_frame objs vals ->
         c <> LBRACE ->
         utf8_decode data = Some (List.concat objs ++ c :: rest) ->
         (List.length objs + 2 <= fuel)%nat ->
         parse_gspro_data fuel data = Raised AssertionError)
  /\ (forall (fuel : nat) (data : bytes),
         utf8_decode data = None ->
         parse_gspro_data fuel data = Raised UnicodeDecodeError)
  /\ (forall (fuel : nat) (b : byte) (rest : bytes) (result : list pyval),
         b <> x7b ->
         parse_gspro_data (S fuel) (b :: rest) <> Returned result).
Proof.
  assert (Hfirst : forall (fuel : nat) (b : byte) (rest : bytes) (s : str),
             b <> x7b ->
             utf8_decode (b :: rest) = Some s ->
             parse_gspro_data (S fuel) (b :: rest) = Raised AssertionError).
  { intros fuel b rest s Hb E. unfold parse_gspro_data. rewrite E.
    destruct (utf8_decode_head b rest s E Hb) as (c & r & -> & Hc).
    apply assert_fails_at_cursor.
    - unfold len. simpl List.length. lia.
    - change (str_index (c :: r) 0) with (Some c).
      intros H. apply Hc. congruence. }
  split; [exact Hfirst|]. split; [|split; [|split]].
  - apply assert_fails_at_cursor.
  - intros objs vals c rest data fuel Hf Hc Hd Hfuel.
    unfold parse_gspro_data. rewrite Hd.
    apply (parse_loop_mono (List.length objs + 2));
      [|discriminate | exact Hfuel].
    pose proof (parse_loop_easy_frames objs vals Hf [] (c :: rest) [] 2
                  (le_n 2)) as H.
    simpl app in H. rewrite len_nil, Z.add_0_l in H. rewrite H.
    pose proof (len_nonneg (List.concat objs)) as Hn.
    apply assert_fails_at_cursor.
    + unfold len. rewrite length_app. simpl List.length. lia.
    + pose proof (str_index_middle (List.concat objs) [] c rest) as Hi.
      rewrite app_nil_r in Hi. rewrite Hi. congruence.
  - intros fuel data E. unfold parse_gspro_data. rewrite E. reflexivity.
  - intros fuel b rest result Hb.
    destruct (utf8_decode (b :: rest)) as [s|] eqn:E.
    + rewrite (Hfirst fuel b rest s Hb E). discriminate.
    + unfold parse_gspro_data. rewrite E. discriminate.
Qed.

Lemma invalid_frame_raises_witness :
  parse_gspro_data 1 (x78 :: qblit "{'Code':200}") = Raised AssertionError
  /\ parse_loop 1 (qlit "{'Code':200}x") 12 [PDict [(lit "Code", PInt 200)]]
     = Raised AssertionError
  /\ parse_gspro_data 3 (qblit "{'Code':200}x") = Raised AssertionError
  /\ parse_gspro_data 3 (qblit "{'Code':200}" ++ [xc3])
     = Raised UnicodeDecodeError
  /\ parse_gspro_data 1 (x78 :: qblit "{'Code':200}")
     <> Returned [PDict [(lit "Code", PInt 200)]].
Proof.
  destruct invalid_frame_raises as (H1 & H2 & H3 & H4 & H5).
  split; [|split; [|split; [|split]]].
  - apply (H1 0%nat x78 (qblit "{'Code':200}") (qlit "x{'Code':200}")).
    + discriminate.
    + vm_compute. reflexivity.
  - apply (H2 0%nat).
    + vm_compute. split; [discriminate | reflexivity].
    + vm_compute. discriminate.
  - apply (H3 [qlit "{'Code':200}"] [PDict [(lit "Code", PInt 200)]]
             (ord "x") []).
    + constructor; [|constructor].
      split; [reflexivity|]. split; [vm_compute; reflexivity|].
      left. vm_compute. reflexivity.
    + vm_compute. discriminate.
    + vm_compute. reflexivity.
    + simpl. lia.
  - apply H4. vm_compute. reflexivity.
  - apply H5. discriminate.
Defined.

(** C8 as stated fails on a buffer that is not UTF-8 text: its first byte
    is not an opening brace, and what the call raises is UnicodeDecodeError,
    from [data.decode()], not the invalid-frame error of the [assert], which
    is never reached. *)
Lemma not_utf8_buffer_raises_UnicodeDecodeError :
  hd_error not_utf8_buffer <> Some x7b
  /\ utf8_decode not_utf8_buffer = None
  /\ (forall fuel,
         parse_gspro_data fuel not_utf8_buffer = Raised UnicodeDecodeError)
  /\ (forall fuel,
         parse_gspro_data fuel not_utf8_buffer <> Raised AssertionError).
Proof.
  split; [discriminate|]. split; [reflexivity|].
  split; intros fuel; unfold parse_gspro_data;
    change (utf8_decode not_utf8_buffer) with (@None str);
    [reflexivity | discriminate].
Qed.

(** *** Shot numbers *)

Lemma construct_number (c : construction) (n : Z) :
  Shot.ShotNumber (fst (construct c n)) = n /\ snd (construct c n) = n + 1.
Proof. destruct c; split; reflexivity. Qed.

Lemma construct_all_nth (cs : list construction) :
  forall (n : Z) (i : nat) (s : Shot.t),
    nth_error (fst (construct_all cs n)) i = Some s ->
    Shot.ShotNumber s = n + Z.of_nat i.
Proof.
  induction cs as [|c cs IH]; intros n i s H; simpl in H.
  - destruct i; discriminate.
  - destruct (construct c n) as [s0 n1] eqn:Ec.
    destruct (construct_all cs n1) as [ss n2] eqn:Ecs.
    pose proof (construct_number c n) as [Hn Hn1]. rewrite Ec in Hn, Hn1.
    simpl in *. destruct i as [|i]; simpl in H.
    + inversion H; subst. lia.
    + specialize (IH n1 i s). rewrite Ecs in IH. simpl in IH.
      rewrite (IH H). lia.
Qed.

(** C5.  Whatever the constructions of a run are, and from whatever value
    of the counter, a shot constructed later has a strictly greater
    [ShotNumber] than one constructed earlier, so no two are equal; the
    number an explicit [ShotNumber] argument asks for is overridden.  The
    counter belongs to the class, not to a session: the heartbeat a
    session sends takes and advances it the same way for every session. *)
Theorem shot_numbers_strictly_increase (cs : list construction) (n0 : Z) :
  (forall (i j : nat) (si sj : Shot.t),
      nth_error (fst (construct_all cs n0)) i = Some si ->
      nth_error (fst (construct_all cs n0)) j = Some sj ->
      (i < j)%nat ->
      Shot.ShotNumber si < Shot.ShotNumber sj)
  /\ (forall (i j : nat) (si sj : Shot.t),
         nth_error (fst (construct_all cs n0)) i = Some si ->
         nth_error (fst (construct_all cs n0)) j = Some sj ->
         i <> j ->
         Shot.ShotNumber si <> Shot.ShotNumber sj)
  /\ (forall (kw : Shot.kwargs) (n : Z),
         Shot.ShotNumber (fst (Shot.__init__ kw n)) = n
         /\ snd (Shot.__init__ kw n) = n + 1)
  /\ (forall (self : GSProSession.t) (n : Z),
         snd (GSProSession.send_heartbeat self n) = n + 1).
Proof.
  split; [|split; [|split]].
  - intros i j si sj Hi Hj Hlt.
    rewrite (construct_all_nth _ _ _ _ Hi), (construct_all_nth _ _ _ _ Hj). lia.
  - intros i j si sj Hi Hj Hne.
    rewrite (construct_all_nth _ _ _ _ Hi), (construct_all_nth _ _ _ _ Hj). lia.
  - intros kw n. split; reflexivity.
  - intros self n. reflexivity.
Qed.

Lemma shot_numbers_strictly_increase_witness :
  Shot.ShotNumber (fst (Shot.heartbeat 42))
  < Shot.ShotNumber
      (fst (Shot.replace (fst (Shot.heartbeat 42)) Shot.no_kwargs 43)).
Proof.
  apply (proj1 (shot_numbers_strictly_increase
                  [ByHeartbeat; ByReplace (fst (Shot.heartbeat 42)) Shot.no_kwargs]
                  42) 0%nat 1%nat);
    [reflexivity | reflexivity | lia].
Defined.

(** *** Serialization *)

Lemma existsb_str_eqb_In (k : str) (l : list str) :
  existsb (str_eqb k) l = true <-> In k l.
Proof.
  rewrite existsb_exists. split.
  - intros (x & Hx & E). apply str_eqb_eq in E. subst. exact Hx.
  - intros H. exists k. split; [exact H | apply str_eqb_refl].
Qed.

Lemma distinct_NoDup (l : list str) : distinct l = true -> NoDup l.
Proof.
  induction l as [|x r IH]; simpl; intros H; constructor.
  - apply andb_true_iff in H as [H _]. apply negb_true_iff in H.
    intros Hin. apply existsb_str_eqb_In in Hin. congruence.
  - apply IH. apply andb_true_iff in H as [_ H]. exact H.
Qed.

Lemma dict_get_None (d : dict) (k : str) :
  dict_get d k = None <-> ~ In k (dict_keys d).
Proof.
  induction d as [|[k' v] r IH]; simpl.
  - tauto.
  - destruct (str_eqb k' k) eqn:E.
    + apply str_eqb_eq in E. subst. split; [discriminate | tauto].
    + apply str_eqb_neq in E. rewrite IH. tauto.
Qed.

Lemma dict_set_fresh (d : dict) (k : str) (v : pyval) :
  ~ In k (dict_keys d) -> dict_set d k v = d ++ [(k, v)].
Proof.
  induction d as [|[k' v'] r IH]; simpl; intros H; [reflexivity|].
  destruct (str_eqb k' k) eqn:E.
  - apply str_eqb_eq in E. tauto.
  - rewrite IH by tauto. reflexivity.
Qed.

Lemma omit_unset_not_None (v : pyval) :
  is_None v = false -> omit_unset v <> PNone.
Proof. destruct v; simpl; congruence. Qed.

Lemma omit_unset_plain (v : pyval) :
  is_dataclass v = false -> omit_unset v = v.
Proof. destruct v; simpl; congruence. Qed.

(** The loop over the fields adds, after what it was given, the fields
    that are set, each dataclass-valued one through the recursive call. *)
Lemma asdict_fields_omit (flds : list (str * pyval)) :
  Forall (fun kv =>
            forall c f, snd kv = PData c f -> wf_data (snd kv) = true ->
                        asdict_ignore_none (snd kv)
                        = Returned (omit_items omit_unset f)) flds ->
  forallb (fun kv => wf_data (snd kv)) flds = true ->
  NoDup (map fst flds) ->
  forall acc,
    (forall k, In k (map fst flds) -> ~ In k (dict_keys acc)) ->
    asdict_fields asdict_ignore_none flds acc
    = Returned (acc ++ omit_items omit_unset flds).
Proof.
  induction flds as [|[name val] rest IH]; intros HF Hwf Hnd acc Hfresh.
  - simpl. rewrite app_nil_r. reflexivity.
  - inversion HF as [|? ? Hval HF']; subst.
    simpl in Hwf. apply andb_true_iff in Hwf as [Hwv Hwf].
    inversion Hnd as [|? ? Hnotin Hnd']; subst.
    assert (Hnext : forall x, forall k, In k (map fst rest) ->
                    ~ In k (dict_keys (acc ++ [(name, x)]))).
    { intros x k Hk Hin. unfold dict_keys in Hin. rewrite map_app in Hin.
      apply in_app_or in Hin as [Hin|Hin].
      - apply (Hfresh k); [right; exact Hk | exact Hin].
      - simpl in Hin. destruct Hin as [<-|[]]. tauto. }
    unfold omit_items. simpl.
    destruct (is_None val) eqn:EN.
    + apply IH; auto. intros k Hk. apply Hfresh. right. exact Hk.
    + destruct (is_dataclass val) eqn:ED.
      * destruct val; try discriminate. cbn [snd] in Hval.
        rewrite (Hval _ _ eq_refl Hwv). simpl bind.
        rewrite dict_set_fresh by (apply Hfresh; left; reflexivity).
        rewrite IH by auto.
        rewrite <- app_assoc. reflexivity.
      * rewrite dict_set_fresh by (apply Hfresh; left; reflexivity).
        rewrite IH by auto.
        rewrite (omit_unset_plain val ED).
        rewrite <- app_assoc. reflexivity.
Qed.

(** [asdict_ignore_none] computes what the contract says, on every
    dataclass instance. *)
Lemma asdict_ignore_none_omit_unset (v : pyval) :
  forall c f, v = PData c f -> wf_data v = true ->
              asdict_ignore_none v = Returned (omit_items omit_unset f).
Proof.
  induction v using pyval_nested_ind; intros c' f' E Hwf; try discriminate.
  inversion E; subst. simpl in Hwf. apply andb_true_iff in Hwf as [Hd Hw].
  change (asdict_ignore_none (PData c' f'))
    with (asdict_fields asdict_ignore_none f' []).
  rewrite asdict_fields_omit; auto using distinct_NoDup.
Qed.

Lemma omit_items_keys (recur : pyval -> pyval) (flds : list (str * pyval)) :
  dict_keys (omit_items recur flds)
  = map fst (filter (fun kv => negb (is_None (snd kv))) flds).
Proof.
  induction flds as [|[k v] r IH]; simpl; [reflexivity|].
  destruct (is_None v); simpl; [exact IH | f_equal; exact IH].
Qed.

Lemma omit_items_no_null (flds : list (str * pyval)) :
  no_null (omit_items omit_unset flds).
Proof.
  induction flds as [|[k v] r IH]; simpl; [constructor|].
  destruct (is_None v) eqn:E; simpl; [exact IH|].
  constructor; [apply omit_unset_not_None; exact E | exact IH].
Qed.

Lemma BallData_wf (b : BallData.t) : wf_data (obj b) = true.
Proof. destruct b as [[] [] [] [] []]; reflexivity. Qed.

Lemma ShotDataOptions_wf (o : ShotDataOptions.t) : wf_data (obj o) = true.
Proof. destruct o as [a b [|] [|] [|]]; reflexivity. Qed.

Lemma Shot_wf (s : Shot.t) : wf_data (obj s) = true.
Proof.
  destruct s as [d u n a b o].
  pose proof (ShotDataOptions_wf o) as Ho.
  destruct b as [b|]; [pose proof (BallData_wf b) as Hb|];
    unfold obj in *; simpl in *.
  - rewrite Ho, Hb. reflexivity.
  - rewrite Ho. reflexivity.
Qed.

(** *** [json.dumps] writes ASCII, on every value it accepts *)

Lemma Forall_firstn' {A : Type} (P : A -> Prop) (n : nat) (l : list A) :
  Forall P l -> Forall P (firstn n l).
Proof.
  revert l; induction n as [|n IH]; intros [|x l] H; simpl; auto.
  inversion H; subst. constructor; auto.
Qed.

Lemma Forall_skipn' {A : Type} (P : A -> Prop) (n : nat) (l : list A) :
  Forall P l -> Forall P (skipn n l).
Proof.
  revert l; induction n as [|n IH]; intros [|x l] H; simpl; auto.
  inversion H; subst. auto.
Qed.

Lemma Forall_repeat' {A : Type} (P : A -> Prop) (x : A) (n : nat) :
  P x -> Forall P (repeat x n).
Proof. intros H. induction n; simpl; auto. Qed.

Lemma utf8_encode_ascii (s : str) :
  Forall is_ascii s -> utf8_encode s = Some (map byte_of s).
Proof.
  induction 1 as [|c r Hc Hr IH]; simpl; [reflexivity|].
  unfold utf8_encode_char.
  replace (N.ltb c 128) with true by (symmetry; apply N.ltb_lt; exact Hc).
  rewrite IH. reflexivity.
Qed.

Lemma hex_digit_ascii (n : N) : (n < 16)%N -> is_ascii (Json.hex_digit n).
Proof.
  intros H. unfold Json.hex_digit, is_ascii. destruct (N.ltb n 10); lia.
Qed.

Lemma u_escape_ascii (c : N) : (c < 65536)%N -> Forall is_ascii (Json.u_escape c).
Proof.
  intros H. unfold Json.u_escape.
  repeat constructor; try (unfold is_ascii; lia); apply hex_digit_ascii.
  - apply N.Div0.div_lt_upper_bound; lia.
  - apply N.mod_lt; lia.
  - apply N.mod_lt; lia.
  - apply N.mod_lt; lia.
Qed.

Lemma escape_char_ascii (c : char) : Forall is_ascii (Json.escape_char c).
Proof.
  unfold Json.escape_char.
  repeat match goal with
         | |- context [if N.eqb c ?k then _ else _] =>
             destruct (N.eqb c k);
             [repeat constructor; try (unfold is_ascii; lia)|]
         end.
  destruct (in_range 32 126 c) eqn:E.
  { unfold in_range in E. apply andb_true_iff in E as [_ E].
    apply N.leb_le in E. repeat constructor; try (unfold is_ascii; lia). }
  destruct (N.ltb c 65536) eqn:E2.
  { apply N.ltb_lt in E2. apply u_escape_ascii. exact E2. }
  apply Forall_app. split; apply u_escape_ascii.
  - pose proof (N.mod_lt ((c - 65536) / 1024) 1024). lia.
  - pose proof (N.mod_lt (c - 65536) 1024). lia.
Qed.

Lemma encode_basestring_ascii_ascii (s : str) :
  Forall is_ascii (Json.encode_basestring_ascii s).
Proof.
  unfold Json.encode_basestring_ascii. constructor; [unfold is_ascii; lia|].
  apply Forall_app. split.
  - apply Forall_flat_map. apply Forall_forall. intros c _.
    apply escape_char_ascii.
  - repeat constructor; try (unfold is_ascii; lia).
Qed.

Lemma uint_str_ascii (d : Decimal.uint) : Forall is_ascii (Json.uint_str d).
Proof.
  induction d; simpl; constructor; auto; unfold is_ascii; lia.
Qed.

Lemma N_str_ascii (n : N) : Forall is_ascii (Json.N_str n).
Proof. apply uint_str_ascii. Qed.

Lemma int_repr_ascii (z : Z) : Forall is_ascii (Json.int_repr z).
Proof.
  unfold Json.int_repr. destruct (z <? 0).
  - constructor; [unfold is_ascii; lia | apply N_str_ascii].
  - apply N_str_ascii.
Qed.

Lemma float_repr_ascii (f : pyfloat) : Forall is_ascii (Json.float_repr f).
Proof.
  assert (Hc : forall c : N, (c < 128)%N -> is_ascii c) by (intros; assumption).
  destruct f as [neg digits e| |[|]];
    try (repeat constructor; unfold is_ascii; vm_compute; reflexivity).
  unfold Json.float_repr.
  destruct (Json.normalize digits e) as [d e'].
  set (ds := Json.N_str d).
  assert (Hds : Forall is_ascii ds) by apply N_str_ascii.
  assert (Hbody : forall body, Forall is_ascii body ->
            Forall is_ascii (if neg then 45%N :: body else body)).
  { intros body Hb. destruct neg; [constructor; [apply Hc; lia | exact Hb] | exact Hb]. }
  apply Hbody.
  destruct ((len ds + e' <=? -4) || (16 <? len ds + e'))%bool.
  - apply Forall_app; split; [apply Forall_firstn'; exact Hds|].
    apply Forall_app; split.
    { destruct (1 <? len ds);
        [constructor; [apply Hc; lia | apply Forall_skipn'; exact Hds]
        | constructor]. }
    apply Forall_app; split.
    { constructor; [apply Hc; lia|]. constructor; [|constructor].
      destruct (len ds + e' - 1 <? 0); apply Hc; lia. }
    apply Forall_app; split.
    { destruct (Z.abs (len ds + e' - 1) <? 10);
        [constructor; [apply Hc; lia | constructor] | constructor]. }
    apply N_str_ascii.
  - destruct (len ds + e' <=? 0).
    + apply Forall_app; split;
        [constructor; [apply Hc; lia | constructor; [apply Hc; lia | constructor]]|].
      apply Forall_app; split; [apply Forall_repeat'; apply Hc; lia | exact Hds].
    + destruct (len ds <=? len ds + e').
      * apply Forall_app; split; [exact Hds|].
        apply Forall_app; split; [apply Forall_repeat'; apply Hc; lia|].
        constructor; [apply Hc; lia | constructor; [apply Hc; lia | constructor]].
      * apply Forall_app; split; [apply Forall_firstn'; exact Hds|].
        constructor; [apply Hc; lia | apply Forall_skipn'; exact Hds].
Qed.

Lemma flat_map_escape_ascii (k : str) :
  Forall is_ascii (flat_map Json.escape_char k).
Proof.
  apply Forall_flat_map. apply Forall_forall. intros c _.
  apply escape_char_ascii.
Qed.

(** Splits a goal on the characters of a text into its pieces. *)
Ltac pieces :=
  repeat first
    [ apply Forall_nil
    | apply Forall_cons; [unfold is_ascii; lia|]
    | apply Forall_app; split
    | apply flat_map_escape_ascii
    | apply encode_basestring_ascii_ascii
    | match goal with
      | |- Forall _ (if ?b then _ else _) => destruct b
      end ].

Lemma dumps_elements_ascii (l : list pyval) :
  Forall (fun x => forall s, Json.dumps x = Returned s -> Forall is_ascii s) l ->
  forall first s,
    Json.dumps_elements Json.dumps l first = Returned s -> Forall is_ascii s.
Proof.
  induction 1 as [|x r Hx Hr IH]; intros first s H;
    cbn [Json.dumps_elements] in H.
  - inversion H. constructor.
  - destruct (Json.dumps x) as [sx| |] eqn:Ex; cbn [bind] in H; try discriminate.
    destruct (Json.dumps_elements Json.dumps r false) as [sr| |] eqn:Er;
      cbn [bind] in H; try discriminate.
    inversion H; subst. unfold Json.COMMA_SP.
    pieces;
      first [exact (Hx sx Ex) | apply Hx; reflexivity | exact (IH false sr Er)].
Qed.

Lemma dumps_items_ascii (d : list (str * pyval)) :
  Forall (fun kv => forall s, Json.dumps (snd kv) = Returned s
                              -> Forall is_ascii s) d ->
  forall first s,
    Json.dumps_items Json.dumps d first = Returned s -> Forall is_ascii s.
Proof.
  induction 1 as [|[k x] r Hx Hr IH]; intros first s H;
    cbn [Json.dumps_items] in H.
  - inversion H. constructor.
  - destruct (Json.dumps x) as [sx| |] eqn:Ex; cbn [bind] in H; try discriminate.
    destruct (Json.dumps_items Json.dumps r false) as [sr| |] eqn:Er;
      cbn [bind] in H; try discriminate.
    inversion H; subst. unfold Json.COMMA_SP.
    pieces;
      first [exact (Hx sx Ex) | apply Hx; reflexivity | exact (IH false sr Er)].
Qed.

Lemma dumps_ascii (v : pyval) :
  forall text, Json.dumps v = Returned text -> Forall is_ascii text.
Proof.
  induction v using pyval_nested_ind; intros text Hs; cbn [Json.dumps] in Hs.
  - inversion Hs. repeat constructor.
  - destruct b; inversion Hs; repeat constructor.
  - inversion Hs. apply int_repr_ascii.
  - inversion Hs. apply float_repr_ascii.
  - inversion Hs. apply encode_basestring_ascii_ascii.
  - destruct (Json.dumps_elements Json.dumps l true) as [body| |] eqn:E;
      cbn [bind] in Hs; try discriminate.
    inversion Hs. pieces. eapply dumps_elements_ascii; eauto.
  - destruct (Json.dumps_items Json.dumps d true) as [body| |] eqn:E;
      cbn [bind] in Hs; try discriminate.
    inversion Hs. pieces. eapply dumps_items_ascii; eauto.
  - discriminate.
Qed.

Lemma dumps_elements_total (l : list pyval) :
  Forall (fun x => serializable x = true ->
                   exists s, Json.dumps x = Returned s) l ->
  forallb serializable l = true ->
  forall first, exists s, Json.dumps_elements Json.dumps l first = Returned s.
Proof.
  induction 1 as [|x r Hx Hr IH]; intros Hs first;
    cbn [Json.dumps_elements].
  - eauto.
  - simpl in Hs. apply andb_true_iff in Hs as [Hsx Hsr].
    destruct (Hx Hsx) as [sx Ex]. destruct (IH Hsr false) as [sr Er].
    rewrite Ex, Er. cbn [bind]. eauto.
Qed.

Lemma dumps_items_total (d : list (str * pyval)) :
  Forall (fun kv => serializable (snd kv) = true ->
                    exists s, Json.dumps (snd kv) = Returned s) d ->
  forallb (fun kv => serializable (snd kv)) d = true ->
  forall first, exists s, Json.dumps_items Json.dumps d first = Returned s.
Proof.
  induction 1 as [|[k x] r Hx Hr IH]; intros Hs first;
    cbn [Json.dumps_items].
  - eauto.
  - simpl in Hs. apply andb_true_iff in Hs as [Hsx Hsr]. cbn [snd] in Hx.
    destruct (Hx Hsx) as [sx Ex]. destruct (IH Hsr false) as [sr Er].
    rewrite Ex, Er. cbn [bind]. eauto.
Qed.

Lemma dumps_total (v : pyval) :
  serializable v = true -> exists s, Json.dumps v = Returned s.
Proof.
  induction v using pyval_nested_ind; intros Hs; cbn [Json.dumps]; eauto.
  - destruct b; eauto.
  - simpl in Hs. destruct (dumps_elements_total l H Hs true) as [body E].
    rewrite E. cbn [bind]. eauto.
  - simpl in Hs. destruct (dumps_items_total d H Hs true) as [body E].
    rewrite E. cbn [bind]. eauto.
  - discriminate.
Qed.

Lemma serializable_omit_unset (v : pyval) :
  plain_fields v = true -> serializable (omit_unset v) = true.
Proof.
  induction v using pyval_nested_ind; intros Hp; simpl in *; auto.
  induction H as [|[k x] r Hx Hr IH]; simpl in *; [reflexivity|].
  apply andb_true_iff in Hp as [Hpx Hpr].
  unfold omit_items in *. simpl.
  destruct (is_None x); simpl; [auto|].
  rewrite (Hx Hpx). simpl. auto.
Qed.

Lemma BallData_plain (b : BallData.t) : plain_fields (obj b) = true.
Proof. destruct b as [[] [] [] [] []]; reflexivity. Qed.

Lemma ShotDataOptions_plain (o : ShotDataOptions.t) : plain_fields (obj o) = true.
Proof. destruct o as [a b [|] [|] [|]]; reflexivity. Qed.

Lemma Shot_plain (s : Shot.t) : plain_fields (obj s) = true.
Proof.
  destruct s as [d u n a b o].
  pose proof (ShotDataOptions_plain o) as Ho.
  destruct b as [b|]; [pose proof (BallData_plain b) as Hb|];
    unfold obj in *; simpl in *.
  - rewrite Ho, Hb. reflexivity.
  - rewrite Ho. reflexivity.
Qed.

(** Serializing a shot never fails, and the message is the ASCII text
    that [json.dumps] writes for the dict [asdict_ignore_none] builds. *)
Lemma as_msg_total (s : Shot.t) :
  exists text,
    Json.dumps (omit_unset (obj s)) = Returned text
    /\ Forall is_ascii text
    /\ Shot.as_msg s = Returned (map byte_of text).
Proof.
  destruct (dumps_total (omit_unset (obj s))) as [text Ht].
  { apply serializable_omit_unset, Shot_plain. }
  exists text. split; [exact Ht|].
  pose proof (dumps_ascii _ _ Ht) as Ha. split; [exact Ha|].
  unfold Shot.as_msg.
  rewrite (asdict_ignore_none_omit_unset (obj s) _ _ eq_refl (Shot_wf s)).
  cbn [bind].
  change (omit_unset (obj s))
    with (PDict (omit_items omit_unset (fields_of s))) in Ht.
  rewrite Ht. cbn [bind]. rewrite (utf8_encode_ascii _ Ha). reflexivity.
Qed.

(** C6.  [asdict_ignore_none], which [as_msg] hands to [json.dumps],
    yields for every [ShotDataOptions], [BallData] and [Shot] the dict the
    contract describes: its keys are exactly the fields that are set, in
    declaration order, no value is [None], and the nested [BallData] and
    [ShotDataOptions] are dicts built by the same rule; [as_msg] is the text
    [json.dumps] writes for it.  A default shot with only [BallData] set
    carries, under [ShotDataOptions], [ContainsBallData] true and
    [ContainsClubData] false and no other key; the bytes of the first
    shot of [main] are the ones shown. *)
Theorem serialization_omits_unset_fields :
  (forall o : ShotDataOptions.t,
      exists d,
        asdict_ignore_none (obj o) = Returned d
        /\ PDict d = omit_unset (obj o)
        /\ dict_keys d = set_fields (obj o)
        /\ no_null d)
  /\ (forall b : BallData.t,
         exists d,
           asdict_ignore_none (obj b) = Returned d
           /\ PDict d = omit_unset (obj b)
           /\ dict_keys d = set_fields (obj b)
           /\ no_null d)
  /\ (forall s : Shot.t,
         exists d,
           asdict_ignore_none (obj s) = Returned d
           /\ PDict d = omit_unset (obj s)
           /\ dict_keys d = set_fields (obj s)
           /\ no_null d
           /\ dict_get d (lit "ShotDataOptions")
              = Some (omit_unset (obj (Shot.ShotDataOptions s)))
           /\ dict_get d (lit "BallData")
              = option_map (fun b => omit_unset (obj b)) (Shot.BallData s)
           /\ exists text,
               Json.dumps (PDict d) = Returned text
               /\ Shot.as_msg s = Returned (map byte_of text))
  /\ (forall (b : BallData.t) (n : Z),
         exists d,
           asdict_ignore_none (obj (fst (Shot.__init__ (only_BallData b) n)))
           = Returned d
           /\ dict_get d (lit "ShotDataOptions")
              = Some (PDict [(lit "ContainsBallData", PBool true);
                             (lit "ContainsClubData", PBool false)]))
  /\ Shot.as_msg
       (fst (Shot.__init__ (only_BallData main_BallData) Shot.next_shot_number))
     = Returned
         (qblit "{'DeviceID': 'GSPro LM 1.1', 'Units': 'Yards', 'ShotNumber': 42, 'APIVersion': '1', 'BallData': {'Speed': 75, 'SpinAxis': 13.2, 'TotalSpin': 9000, 'HLA': -5, 'VLA': 29}, 'ShotDataOptions': {'ContainsBallData': true, 'ContainsClubData': false}}").
Proof.
  split; [|split; [|split; [|split]]]; [| | | |vm_compute; reflexivity].
  - intros o. exists (omit_items omit_unset (fields_of o)).
    split; [apply (asdict_ignore_none_omit_unset (obj o) _ _ eq_refl),
              ShotDataOptions_wf|].
    split; [reflexivity|].
    split; [apply omit_items_keys | apply omit_items_no_null].
  - intros b. exists (omit_items omit_unset (fields_of b)).
    split; [apply (asdict_ignore_none_omit_unset (obj b) _ _ eq_refl),
              BallData_wf|].
    split; [reflexivity|].
    split; [apply omit_items_keys | apply omit_items_no_null].
  - intros s. exists (omit_items omit_unset (fields_of s)).
    split; [apply (asdict_ignore_none_omit_unset (obj s) _ _ eq_refl),
              Shot_wf|].
    split; [reflexivity|].
    split; [apply omit_items_keys|].
    split; [apply omit_items_no_null|].
    split; [destruct s as [d u n a [b|] o]; reflexivity|].
    split; [destruct s as [d u n a [b|] o]; reflexivity|].
    destruct (as_msg_total s) as (text & Ht & _ & Hm).
    exists text. split; [exact Ht | exact Hm].
  - intros b n.
    exists (omit_items omit_unset
              (fields_of (fst (Shot.__init__ (only_BallData b) n)))).
    split; [apply (asdict_ignore_none_omit_unset (obj _) _ _ eq_refl),
              Shot_wf|].
    reflexivity.
Qed.

(** C7.  The heartbeat, whatever the counter gives it as number,
    serializes to a dict without the key [BallData] whose
    [ShotDataOptions] holds [ContainsBallData] false, [ContainsClubData]
    false and [IsHeartbeat] true, and [as_msg] is the text [json.dumps]
    writes for that dict; for the first shot of a process the bytes are the
    ones shown. *)
Theorem heartbeat_serialization :
  (forall n : Z,
      exists d,
        asdict_ignore_none (obj (fst (Shot.heartbeat n))) = Returned d
        /\ dict_mem d (lit "BallData") = false
        /\ dict_get d (lit "ShotDataOptions")
           = Some (PDict [(lit "ContainsBallData", PBool false);
                          (lit "ContainsClubData", PBool false);
                          (lit "IsHeartbeat", PBool true)])
        /\ exists text,
            Json.dumps (PDict d) = Returned text
            /\ Shot.as_msg (fst (Shot.heartbeat n)) = Returned (map byte_of text))
  /\ Shot.as_msg (fst (Shot.heartbeat Shot.next_shot_number))
     = Returned
         (qblit "{'DeviceID': 'GSPro LM 1.1', 'Units': 'Yards', 'ShotNumber': 42, 'APIVersion': '1', 'ShotDataOptions': {'ContainsBallData': false, 'ContainsClubData': false, 'IsHeartbeat': true}}").
Proof.
  split.
  - intros n.
    exists (omit_items omit_unset (fields_of (fst (Shot.heartbeat n)))).
    split; [apply (asdict_ignore_none_omit_unset (obj _) _ _ eq_refl),
              Shot_wf|].
    split; [reflexivity|]. split; [reflexivity|].
    destruct (as_msg_total (fst (Shot.heartbeat n))) as (text & Ht & _ & Hm).
    exists text. split; [exact Ht | exact Hm].
  - vm_compute. reflexivity.
Qed.

(** *** Decoding a reply *)

Lemma dict_remove_absent (d : dict) (k : str) :
  dict_get d k = None -> dict_remove d k = d.
Proof.
  induction d as [|[k' v] r IH]; simpl; [reflexivity|].
  destruct (str_eqb k' k); [discriminate|].
  intros H. rewrite IH by exact H. reflexivity.
Qed.

Lemma dict_get_remove_neq (d : dict) (k k' : str) :
  k <> k' -> dict_get (dict_remove d k) k' = dict_get d k'.
Proof.
  intros Hne. induction d as [|[k0 v] r IH]; simpl; [reflexivity|].
  destruct (str_eqb k0 k) eqn:E.
  - apply str_eqb_eq in E. subst k0.
    replace (str_eqb k k') with false by (symmetry; apply str_eqb_neq; exact Hne).
    reflexivity.
  - simpl. destruct (str_eqb k0 k'); [reflexivity | exact IH].
Qed.

Lemma dict_remove_filter (d : dict) (k : str) :
  NoDup (dict_keys d) ->
  dict_remove d k = filter (fun kv => negb (str_eqb (fst kv) k)) d.
Proof.
  induction d as [|[k' v] r IH]; simpl; intros Hnd; [reflexivity|].
  inversion Hnd as [|? ? Hnotin Hnd']; subst.
  destruct (str_eqb k' k) eqn:E; simpl.
  - apply str_eqb_eq in E. subst k'.
    rewrite <- IH by exact Hnd'. symmetry. apply dict_remove_absent.
    apply dict_get_None. exact Hnotin.
  - rewrite IH by exact Hnd'. reflexivity.
Qed.

Lemma dict_keys_filter_NoDup (p : str * pyval -> bool) (d : dict) :
  NoDup (dict_keys d) -> NoDup (dict_keys (filter p d)).
Proof.
  induction d as [|[k v] r IH]; simpl; intros Hnd; [constructor|].
  inversion Hnd as [|? ? Hnotin Hnd']; subst.
  destruct (p (k, v)); simpl; [constructor|]; auto.
  intros Hin. apply Hnotin. unfold dict_keys in *.
  apply in_map_iff in Hin as ([k' v'] & Hk & Hin). simpl in Hk. subst k'.
  apply filter_In in Hin as [Hin _].
  apply in_map_iff. exists (k, v'). split; [reflexivity | exact Hin].
Qed.

Lemma filter_filter {A : Type} (p q : A -> bool) (l : list A) :
  filter p (filter q l) = filter (fun x => q x && p x) l.
Proof.
  induction l as [|x r IH]; simpl; [reflexivity|].
  destruct (q x); simpl; [destruct (p x); simpl; congruence | exact IH].
Qed.

(** One round of the loop over the fields: the name leaves [dct] and, if
    it was there, enters [kwargs] with its value. *)
Lemma pop_fields_step (name : str) (rest : list str) (dct kwargs : dict) :
  GSProMessage.pop_fields (name :: rest) dct kwargs
  = GSProMessage.pop_fields rest (dict_remove dct name)
      (match dict_get dct name with
       | Some v => dict_set kwargs name v
       | None => kwargs
       end).
Proof.
  simpl. unfold dict_mem, dict_pop.
  destruct (dict_get dct name) eqn:E; [reflexivity|].
  rewrite (dict_remove_absent _ _ E). reflexivity.
Qed.

(** What is left of [dct] after the loop, for a dict without the key
    [Xtra]: the items whose key is not [Code], [Message] or [Player], in
    their order. *)
Lemma remaining_items (dct : dict) :
  NoDup (dict_keys dct) ->
  dict_get dct (lit "Xtra") = None ->
  dict_remove
    (dict_remove (dict_remove (dict_remove dct (lit "Code")) (lit "Message"))
       (lit "Player")) (lit "Xtra")
  = filter (fun kv => negb (is_known (fst kv))) dct.
Proof.
  intros Hnd Hx.
  rewrite (dict_remove_absent _ (lit "Xtra"))
    by (rewrite !dict_get_remove_neq by discriminate; exact Hx).
  rewrite (dict_remove_filter dct (lit "Code") Hnd).
  rewrite (dict_remove_filter _ (lit "Message")
             (dict_keys_filter_NoDup _ _ Hnd)).
  rewrite (dict_remove_filter _ (lit "Player")
             (dict_keys_filter_NoDup _ _ (dict_keys_filter_NoDup _ _ Hnd))).
  rewrite !filter_filter. apply filter_ext. intros [k v]. simpl.
  unfold is_known. simpl.
  rewrite !(str_eqb_sym k).
  destruct (str_eqb (lit "Code") k), (str_eqb (lit "Message") k),
    (str_eqb (lit "Player") k); reflexivity.
Qed.

(** C4, as amended.  A reply that has a [Code] always decodes, whatever
    other keys it has: [Code], [Message] and [Player] are taken out, and the
    two optional ones default to [None].  When the reply has no key called
    [Xtra], every other item, whatever its key, is kept in [Xtra], in its
    order.  A reply without [Code] does not decode: the call of the class
    raises TypeError. *)
Theorem create_from_dict_decodes (dct : dict) :
  NoDup (dict_keys dct) ->
  (forall code,
      dict_get dct (lit "Code") = Some code ->
      exists x,
        GSProMessage.create_from_dict dct
        = Returned
            {| GSProMessage.Code := code;
               GSProMessage.Message :=
                 or_default (dict_get dct (lit "Message")) PNone;
               GSProMessage.Player :=
                 or_default (dict_get dct (lit "Player")) PNone;
               GSProMessage.Xtra := x |}
        /\ (dict_get dct (lit "Xtra") = None ->
            x = PDict (filter (fun kv => negb (is_known (fst kv))) dct)))
  /\ (dict_get dct (lit "Code") = None ->
      GSProMessage.create_from_dict dct = Raised TypeError).
Proof.
  intros Hnd. split.
  - intros code Hc.
    unfold GSProMessage.create_from_dict, GSProMessage.field_names.
    rewrite !pop_fields_step, !dict_get_remove_neq by discriminate.
    rewrite Hc. cbn [GSProMessage.pop_fields].
    exists (PDict
              (dict_remove
                 (dict_remove
                    (dict_remove (dict_remove dct (lit "Code")) (lit "Message"))
                    (lit "Player"))
                 (lit "Xtra"))).
    split.
    + destruct (dict_get dct (lit "Xtra")), (dict_get dct (lit "Message")),
        (dict_get dct (lit "Player")); reflexivity.
    + intros Hx. rewrite remaining_items by assumption. reflexivity.
  - intros Hc.
    unfold GSProMessage.create_from_dict, GSProMessage.field_names.
    rewrite !pop_fields_step, !dict_get_remove_neq by discriminate.
    rewrite Hc. cbn [GSProMessage.pop_fields].
    destruct (dict_get dct (lit "Xtra")), (dict_get dct (lit "Message")),
      (dict_get dct (lit "Player")); reflexivity.
Qed.

Lemma create_from_dict_decodes_witness :
  GSProMessage.create_from_dict reply_with_extra
  = Returned
      {| GSProMessage.Code := PInt 201;
         GSProMessage.Message := PNone;
         GSProMessage.Player := PNone;
         GSProMessage.Xtra := PDict [(lit "Club", PStr (lit "DR"))] |}.
Proof.
  destruct (proj1 (create_from_dict_decodes reply_with_extra
                     (distinct_NoDup (dict_keys reply_with_extra) eq_refl))
              (PInt 201) eq_refl) as (x & Hx & Hkept).
  rewrite Hx, (Hkept eq_refl). reflexivity.
Defined.

(** C4 as stated fails on a reply that lacks [Code]: that known field
    does not default to unset, the decode raises TypeError. *)
Lemma create_from_dict_without_Code_fails :
  dict_get reply_without_code (lit "Code") = None
  /\ GSProMessage.create_from_dict reply_without_code = Raised TypeError.
Proof. split; reflexivity. Qed.

(** *** The session *)

Lemma recv_open (s : Socket.t) (bufsize : nat) :
  Socket.closed s = false ->
  exists s',
    Socket.recv s bufsize = (Returned (next_read s bufsize), s')
    /\ Socket.closed s' = false
    /\ Socket.sent s' = Socket.sent s
    /\ Socket.room s' = Socket.room s.
Proof.
  intros H. unfold Socket.recv, next_read. rewrite H.
  destruct (Socket.incoming s) as [|chunk rest].
  - exists s. auto.
  - eexists. split; [reflexivity|]. simpl. auto.
Qed.

Lemma next_read_bounded (s : Socket.t) (bufsize : nat) :
  (List.length (next_read s bufsize) <= bufsize)%nat.
Proof.
  unfold next_read. destruct (Socket.incoming s); simpl; [lia|].
  rewrite length_firstn. lia.
Qed.

(** What [recv_data] does with the attribute the class does not have: as
    soon as the splitter yields a frame, the comprehension raises
    AttributeError and nothing reaches the log. *)
Lemma create_all_raises (dct : pyval) (rest : list pyval) :
  GSProSession.create_all (dct :: rest) = Raised AttributeError.
Proof. reflexivity. Qed.

Lemma recv_data_frames_raise (fuel : nat) (self : GSProSession.t)
    (dct : pyval) (rest : list pyval) :
  GSProSession.is_open self ->
  parse_gspro_data fuel (next_read (GSProSession.sock self) 2048)
  = Returned (dct :: rest) ->
  fst (GSProSession.recv_data fuel self) = Raised AttributeError
  /\ GSProSession.shots_and_responses (snd (GSProSession.recv_data fuel self))
     = GSProSession.shots_and_responses self.
Proof.
  intros Hopen Hp.
  destruct (recv_open (GSProSession.sock self) 2048 Hopen) as (s' & Hrecv & _).
  unfold GSProSession.recv_data. rewrite Hrecv, Hp. split; reflexivity.
Qed.

(** C2, as amended.  On an open session [recv_data] reads once, at most
    2048 bytes, and hands the bytes read to [parse_gspro_data]: an error of
    the splitter is the error of the call, a splitter that does not return
    keeps the call from returning, and in both cases the log is unchanged.
    When the splitter yields no frame, as on a read of zero bytes, the call
    completes normally and leaves the log unchanged: the end of the
    peer's data is not signalled.  The call returns nothing. *)
Theorem recv_data_reads_and_splits (fuel : nat) (self : GSProSession.t) :
  GSProSession.is_open self ->
  let chunk := next_read (GSProSession.sock self) 2048 in
  let out := fst (GSProSession.recv_data fuel self) in
  let self' := snd (GSProSession.recv_data fuel self) in
  (List.length chunk <= 2048)%nat
  /\ Socket.recv (GSProSession.sock self) 2048
     = (Returned chunk, GSProSession.sock self')
  /\ (forall e, parse_gspro_data fuel chunk = Raised e ->
                out = Raised e
                /\ GSProSession.shots_and_responses self'
                   = GSProSession.shots_and_responses self)
  /\ (parse_gspro_data fuel chunk = OutOfFuel ->
      out = OutOfFuel
      /\ GSProSession.shots_and_responses self'
         = GSProSession.shots_and_responses self)
  /\ (parse_gspro_data fuel chunk = Returned [] ->
      out = Returned tt
      /\ GSProSession.shots_and_responses self'
         = GSProSession.shots_and_responses self)
  /\ (chunk = [] -> (0 < fuel)%nat ->
      out = Returned tt
      /\ GSProSession.shots_and_responses self'
         = GSProSession.shots_and_responses self).
Proof.
  intros Hopen chunk out self'.
  destruct (recv_open (GSProSession.sock self) 2048 Hopen)
    as (s' & Hrecv & _).
  fold chunk in Hrecv.
  assert (Hrun : GSProSession.recv_data fuel self
                 = match (dcts <- parse_gspro_data fuel chunk ;;
                          GSProSession.create_all dcts) with
                   | Returned msgs =>
                       (Returned tt,
                        GSProSession.with_log (GSProSession.with_sock self s')
                          (GSProSession.shots_and_responses self
                           ++ map GSProSession.Response msgs))
                   | Raised e => (Raised e, GSProSession.with_sock self s')
                   | OutOfFuel => (OutOfFuel, GSProSession.with_sock self s')
                   end).
  { unfold GSProSession.recv_data. rewrite Hrecv. reflexivity. }
  assert (Hsock : GSProSession.sock self' = s').
  { unfold self'. rewrite Hrun.
    destruct (dcts <- parse_gspro_data fuel chunk ;; GSProSession.create_all dcts);
      reflexivity. }
  split; [apply next_read_bounded|].
  split; [rewrite Hsock; exact Hrecv|].
  unfold out, self'. rewrite Hrun.
  split; [|split; [|split]].
  - intros e He. rewrite He. split; reflexivity.
  - intros He. rewrite He. split; reflexivity.
  - intros He. rewrite He. simpl. rewrite app_nil_r. split; reflexivity.
  - intros Hc Hf. rewrite Hc. destruct fuel as [|f]; [lia|].
    simpl. rewrite app_nil_r. split; reflexivity.
Qed.

Lemma recv_data_reads_and_splits_witness :
  fst (GSProSession.recv_data 1 (session_on [] [])) = Returned tt
  /\ GSProSession.shots_and_responses
       (snd (GSProSession.recv_data 1 (session_on [] [])))
     = GSProSession.shots_and_responses (session_on [] []).
Proof.
  apply (recv_data_reads_and_splits 1 (session_on [] []) eq_refl);
    [reflexivity | lia].
Defined.

(** C2 as stated fails when the peer has closed the connection: the read
    returns zero bytes, and [recv_data] returns normally, with the session
    as it was; nothing tells the caller that the peer is gone. *)
Lemma recv_data_does_not_signal_peer_closed :
  GSProSession.is_open (session_on [] [])
  /\ Socket.recv (GSProSession.sock (session_on [] [])) 2048
     = (Returned [], GSProSession.sock (session_on [] []))
  /\ GSProSession.recv_data 1 (session_on [] [])
     = (Returned tt, session_on [] []).
Proof. repeat split. Qed.

(** [send_shot] on an open session, step by step: the message is
    serialized, the shot is appended to the log, one [send] is made, and
    the count it returns is compared with the length of the message; an
    error of the [send] is the error of the call. *)
Lemma send_shot_open (self : GSProSession.t) (golfshot : Shot.t)
    (shot_data : bytes) :
  GSProSession.is_open self ->
  Shot.as_msg golfshot = Returned shot_data ->
  GSProSession.send_shot self golfshot
  = (match accepted (GSProSession.sock self) shot_data with
     | Some k =>
         if len shot_data =? Z.of_nat k then Returned tt else Raised ValueError
     | None => Raised OSError
     end,
     {| GSProSession.gspro_host := GSProSession.gspro_host self;
        GSProSession.gspro_port := GSProSession.gspro_port self;
        GSProSession.sock :=
          {| Socket.closed := false;
             Socket.incoming := Socket.incoming (GSProSession.sock self);
             Socket.room := tl (Socket.room (GSProSession.sock self));
             Socket.sent :=
               Socket.sent (GSProSession.sock self)
               ++ match accepted (GSProSession.sock self) shot_data with
                  | Some k => firstn k shot_data
                  | None => []
                  end |};
        GSProSession.shots_and_responses :=
          GSProSession.shots_and_responses self
          ++ [GSProSession.SentShot golfshot] |}).
Proof.
  intros Hopen Hmsg. unfold GSProSession.is_open in Hopen.
  unfold GSProSession.send_shot. rewrite Hmsg.
  unfold Socket.send, accepted.
  cbn [GSProSession.with_log GSProSession.sock].
  rewrite Hopen.
  destruct (Socket.room (GSProSession.sock self)) as [|[k|] later].
  - cbv beta iota zeta.
    destruct (len shot_data =? Z.of_nat (List.length shot_data)); reflexivity.
  - cbv beta iota zeta.
    destruct (len shot_data =? Z.of_nat (Nat.min k (List.length shot_data)));
      reflexivity.
  - cbv beta iota zeta. cbn [GSProSession.with_sock tl].
    rewrite app_nil_r. reflexivity.
Qed.

Lemma accepted_le (s : Socket.t) (data : bytes) (k : nat) :
  accepted s data = Some k -> (k <= List.length data)%nat.
Proof.
  unfold accepted. destruct (Socket.room s) as [|[n|] later]; intros H;
    inversion H; lia.
Qed.

(** C9, as amended.  On an open session [send_shot] serializes the shot:
    the message is the text [json.dumps] writes for the dict of the
    fields of the shot that are set, one byte for each character.  It
    appends the shot to the log and hands the whole message to the socket
    in one [send], which is not repeated.  When the [send] returns a
    count, that many leading bytes of the message have been written, and
    [send_shot] raises ValueError, the code's short-write error, exactly
    when the count is smaller than the length of the message, and returns
    normally exactly when it is the length.  When the [send] itself fails,
    the connection being broken, nothing has been written and the error of
    the call is the OSError of the [send], not ValueError.  For the first
    shot of [main] the bytes written are the ones shown, and when the
    transport takes ten bytes they are the first ten. *)
Theorem send_shot_short_write :
  (forall (self : GSProSession.t) (golfshot : Shot.t),
      GSProSession.is_open self ->
      exists text,
        Json.dumps (omit_unset (obj golfshot)) = Returned text
        /\ Forall is_ascii text
        /\ Shot.as_msg golfshot = Returned (map byte_of text)
        /\ GSProSession.shots_and_responses
             (snd (GSProSession.send_shot self golfshot))
           = GSProSession.shots_and_responses self
             ++ [GSProSession.SentShot golfshot]
        /\ Socket.room
             (GSProSession.sock (snd (GSProSession.send_shot self golfshot)))
           = tl (Socket.room (GSProSession.sock self))
        /\ (forall k,
               accepted (GSProSession.sock self) (map byte_of text) = Some k ->
               Socket.sent
                 (GSProSession.sock (snd (GSProSession.send_shot self golfshot)))
               = Socket.sent (GSProSession.sock self)
                 ++ firstn k (map byte_of text)
               /\ (fst (GSProSession.send_shot self golfshot) = Raised ValueError
                   <-> (k < List.length text)%nat)
               /\ (fst (GSProSession.send_shot self golfshot) = Returned tt
                   <-> k = List.length text))
        /\ (accepted (GSProSession.sock self) (map byte_of text) = None ->
            fst (GSProSession.send_shot self golfshot) = Raised OSError
            /\ Socket.sent
                 (GSProSession.sock (snd (GSProSession.send_shot self golfshot)))
               = Socket.sent (GSProSession.sock self))
        /\ (fst (GSProSession.send_shot self golfshot) = Raised ValueError
            <-> exists k,
                 accepted (GSProSession.sock self) (map byte_of text) = Some k
                 /\ (k < List.length text)%nat))
  /\ GSProSession.send_shot (session_on [] [])
       (fst (Shot.__init__ (only_BallData main_BallData) Shot.next_shot_number))
     = (Returned tt,
        GSProSession.with_log
          (GSProSession.with_sock (session_on [] [])
             {| Socket.closed := false;
                Socket.incoming := [];
                Socket.room := [];
                Socket.sent :=
                  qblit "{'DeviceID': 'GSPro LM 1.1', 'Units': 'Yards', 'ShotNumber': 42, 'APIVersion': '1', 'BallData': {'Speed': 75, 'SpinAxis': 13.2, 'TotalSpin': 9000, 'HLA': -5, 'VLA': 29}, 'ShotDataOptions': {'ContainsBallData': true, 'ContainsClubData': false}}" |})
          [GSProSession.SentShot
             (fst (Shot.__init__ (only_BallData main_BallData)
                     Shot.next_shot_number))])
  /\ GSProSession.send_shot (session_on [] [Socket.Takes 10])
       (fst (Shot.__init__ (only_BallData main_BallData) Shot.next_shot_number))
     = (Raised ValueError,
        GSProSession.with_log
          (GSProSession.with_sock (session_on [] [])
             {| Socket.closed := false;
                Socket.incoming := [];
                Socket.room := [];
                Socket.sent := qblit "{'DeviceID" |})
          [GSProSession.SentShot
             (fst (Shot.__init__ (only_BallData main_BallData)
                     Shot.next_shot_number))]).
Proof.
  split; [|split; vm_compute; reflexivity].
  intros self golfshot Hopen.
  destruct (as_msg_total golfshot) as (text & Ht & Ha & Hmsg).
  exists text. split; [exact Ht|]. split; [exact Ha|]. split; [exact Hmsg|].
  rewrite (send_shot_open self golfshot _ Hopen Hmsg).
  cbn [fst snd GSProSession.shots_and_responses GSProSession.sock
       Socket.sent Socket.room].
  assert (Hlen : List.length (map byte_of text) = List.length text)
    by apply length_map.
  split; [reflexivity|]. split; [reflexivity|].
  destruct (accepted (GSProSession.sock self) (map byte_of text)) as [k0|]
    eqn:Ek.
  - pose proof (accepted_le _ _ _ Ek) as Hle. rewrite Hlen in Hle.
    assert (Hcases :
      ((if len (map byte_of text) =? Z.of_nat k0
        then Returned tt else Raised ValueError) = Raised ValueError
       <-> (k0 < List.length text)%nat)
      /\ ((if len (map byte_of text) =? Z.of_nat k0
           then Returned tt else Raised ValueError) = Returned tt
          <-> k0 = List.length text)).
    { unfold len. rewrite Hlen.
      destruct (Z.of_nat (List.length text) =? Z.of_nat k0) eqn:E.
      - apply Z.eqb_eq in E.
        split; split; intros H; try discriminate; try reflexivity; lia.
      - apply Z.eqb_neq in E.
        split; split; intros H; try discriminate; try reflexivity; lia. }
    destruct Hcases as [Hv Hr].
    split; [|split].
    + intros k Hk. inversion Hk; subst k0. split; [reflexivity|].
      split; [exact Hv | exact Hr].
    + discriminate.
    + rewrite Hv. split.
      * intros H. exists k0. split; [reflexivity | exact H].
      * intros (k & Hk & H). inversion Hk; subst. exact H.
  - split; [|split].
    + discriminate.
    + intros _. split; [reflexivity | apply app_nil_r].
    + split; [discriminate|]. intros (k & Hk & _). discriminate.
Qed.

Lemma send_shot_short_write_witness :
  fst (GSProSession.send_shot (session_on [] [Socket.Takes 10])
         (fst (Shot.heartbeat 42)))
  = Raised ValueError
  /\ fst (GSProSession.send_shot (session_on [] []) (fst (Shot.heartbeat 42)))
     = Returned tt.
Proof.
  split.
  - destruct (proj1 send_shot_short_write (session_on [] [Socket.Takes 10])
                (fst (Shot.heartbeat 42)) eq_refl)
      as (text & Ht & _ & _ & _ & _ & _ & _ & Hraise).
    apply Hraise. vm_compute in Ht. injection Ht as <-.
    exists 10%nat. split; [reflexivity | vm_compute; lia].
  - destruct (proj1 send_shot_short_write (session_on [] [])
                (fst (Shot.heartbeat 42)) eq_refl)
      as (text & Ht & _ & _ & _ & _ & Htakes & _).
    vm_compute in Ht. injection Ht as <-.
    apply (Htakes _ eq_refl). reflexivity.
Defined.

(** C9 as stated fails on an open session whose connection is broken: the
    transport takes no byte of the message, which is fewer than it has,
    and what [send_shot] raises is the OSError of the [send], not the
    short-write error. *)
Lemma send_shot_on_broken_connection :
  GSProSession.is_open (session_on [] [Socket.Broken])
  /\ (exists shot_data,
         Shot.as_msg (fst (Shot.heartbeat 42)) = Returned shot_data
         /\ (0 < List.length shot_data)%nat)
  /\ fst (GSProSession.send_shot (session_on [] [Socket.Broken])
            (fst (Shot.heartbeat 42)))
     = Raised OSError
  /\ fst (GSProSession.send_shot (session_on [] [Socket.Broken])
            (fst (Shot.heartbeat 42)))
     <> Raised ValueError
  /\ Socket.sent
       (GSProSession.sock
          (snd (GSProSession.send_shot (session_on [] [Socket.Broken])
                  (fst (Shot.heartbeat 42)))))
     = [].
Proof.
  split; [reflexivity|]. split; [|split; [|split]].
  - eexists. split; [vm_compute; reflexivity | vm_compute; lia].
  - vm_compute. reflexivity.
  - vm_compute. discriminate.
  - vm_compute. reflexivity.
Qed.

(** C10.  The shot is in the log before the socket is written to: when
    the transport takes fewer bytes than the message has, [send_shot]
    raises ValueError and the log ends with the shot all the same; and
    when the write itself fails, on a socket already closed or on a
    connection found broken, the log has been extended too. *)
Theorem send_shot_logs_before_write (self : GSProSession.t)
    (golfshot : Shot.t) (shot_data : bytes) :
  Shot.as_msg golfshot = Returned shot_data ->
  (GSProSession.is_open self ->
   forall k,
     accepted (GSProSession.sock self) shot_data = Some k ->
     (k < List.length shot_data)%nat ->
     fst (GSProSession.send_shot self golfshot) = Raised ValueError
     /\ GSProSession.shots_and_responses
          (snd (GSProSession.send_shot self golfshot))
        = GSProSession.shots_and_responses self
          ++ [GSProSession.SentShot golfshot])
  /\ (Socket.closed (GSProSession.sock self) = true ->
      fst (GSProSession.send_shot self golfshot) = Raised OSError
      /\ GSProSession.shots_and_responses
           (snd (GSProSession.send_shot self golfshot))
         = GSProSession.shots_and_responses self
           ++ [GSProSession.SentShot golfshot])
  /\ (GSProSession.is_open self ->
      accepted (GSProSession.sock self) shot_data = None ->
      fst (GSProSession.send_shot self golfshot) = Raised OSError
      /\ GSProSession.shots_and_responses
           (snd (GSProSession.send_shot self golfshot))
         = GSProSession.shots_and_responses self
           ++ [GSProSession.SentShot golfshot]).
Proof.
  intros Hmsg. split; [|split].
  - intros Hopen k Hk Hshort.
    rewrite (send_shot_open self golfshot _ Hopen Hmsg), Hk.
    cbn [fst snd GSProSession.shots_and_responses].
    split; [|reflexivity].
    replace (len shot_data =? Z.of_nat k) with false; [reflexivity|].
    symmetry. apply Z.eqb_neq. unfold len. lia.
  - intros Hclosed. unfold GSProSession.send_shot. rewrite Hmsg.
    unfold Socket.send. cbn [GSProSession.with_log GSProSession.sock].
    rewrite Hclosed. split; reflexivity.
  - intros Hopen Hk.
    rewrite (send_shot_open self golfshot _ Hopen Hmsg), Hk.
    split; reflexivity.
Qed.

Lemma send_shot_logs_before_write_witness :
  fst (GSProSession.send_shot (session_on [] [Socket.Takes 10])
         (fst (Shot.heartbeat 42)))
  = Raised ValueError
  /\ GSProSession.shots_and_responses
       (snd (GSProSession.send_shot (session_on [] [Socket.Takes 10])
               (fst (Shot.heartbeat 42))))
     = GSProSession.shots_and_responses (session_on [] [Socket.Takes 10])
       ++ [GSProSession.SentShot (fst (Shot.heartbeat 42))].
Proof.
  apply (proj1 (send_shot_logs_before_write (session_on [] [Socket.Takes 10])
                  (fst (Shot.heartbeat 42))
                  (qblit "{'DeviceID': 'GSPro LM 1.1', 'Units': 'Yards', 'ShotNumber': 42, 'APIVersion': '1', 'ShotDataOptions': {'ContainsBallData': false, 'ContainsClubData': false, 'IsHeartbeat': true}}")
                  ltac:(vm_compute; reflexivity))
           eq_refl 10%nat);
    [reflexivity | vm_compute; lia].
Defined.

(** ** Further properties of the code *)

(** *** What the splitter returns *)

Lemma find_msg_returned (fuel : nat) :
  forall (data : str) (L start : Z) (msg : pyval) (substr : str),
    find_msg fuel data L start = Returned (msg, substr) ->
    exists start',
      substr = probe data L start' /\ Json.loads substr = Some msg.
Proof.
  induction fuel as [|f IH]; intros data L start msg substr H; [discriminate|].
  rewrite find_msg_unfold in H.
  destruct (Json.loads (probe data L start)) as [v|] eqn:E.
  - destruct v; try (inversion H; subst; exists start; split; [reflexivity | exact E]).
    eapply IH; eauto.
  - eapply IH; eauto.
Qed.

Lemma find_aux_spec (ch : char) (s : str) :
  forall pos, 0 <= pos -> 0 <= find_aux ch s pos ->
    nth_error s (Z.to_nat (find_aux ch s pos - pos)) = Some ch.
Proof.
  induction s as [|x r IH]; intros pos Hpos H; simpl in *; [lia|].
  destruct (N.eqb x ch) eqn:E.
  - apply N.eqb_eq in E. subst. rewrite Z.sub_diag. reflexivity.
  - destruct (find_aux_bounds ch r (pos + 1)) as [Hb|Hb]; [lia | lia |].
    specialize (IH (pos + 1) ltac:(lia) H).
    replace (Z.to_nat (find_aux ch r (pos + 1) - pos))
      with (S (Z.to_nat (find_aux ch r (pos + 1) - (pos + 1)))) by lia.
    exact IH.
Qed.

(** [find] answers [-1] or the index of a character that is the one looked
    for. *)
Lemma str_find_spec (s : str) (ch : char) (start : Z) :
  str_find s ch start = -1
  \/ (0 <= str_find s ch start < len s
      /\ nth_error s (Z.to_nat (str_find s ch start)) = Some ch).
Proof.
  unfold str_find.
  set (k := if start <? 0 then Z.max 0 (start + len s) else start).
  assert (Hk : 0 <= k) by (unfold k; destruct (start <? 0) eqn:E; lia).
  destruct (find_aux_bounds ch (skipn (Z.to_nat k) s) k Hk) as [Hb|Hb];
    [left; exact Hb | right].
  pose proof (find_aux_spec ch (skipn (Z.to_nat k) s) k Hk ltac:(lia)) as Hn.
  unfold len in *. rewrite length_skipn in Hb.
  split; [lia|].
  rewrite nth_error_skipn in Hn.
  replace (Z.to_nat (find_aux ch (skipn (Z.to_nat k) s) k))
    with (Z.to_nat k + Z.to_nat (find_aux ch (skipn (Z.to_nat k) s) k - k))%nat
    by lia.
  exact Hn.
Qed.

Lemma ends_split (l : str) (a b : char) :
  hd_error l = Some a ->
  nth_error l (List.length l - 1) = Some b ->
  a <> b ->
  exists body, l = a :: body ++ [b].
Proof.
  intros Hhd Hlast Hne.
  destruct l as [|x r]; [discriminate|]. simpl in Hhd. inversion Hhd; subst x.
  destruct r as [|y r' _] using rev_ind.
  - simpl in Hlast. inversion Hlast. contradiction.
  - exists r'. f_equal.
    replace (List.length (a :: r' ++ [y]) - 1)%nat with (S (List.length r'))
      in Hlast by (cbn [List.length]; rewrite length_app; simpl; lia).
    change (nth_error (a :: r' ++ [y]) (S (List.length r')))
      with (nth_error (r' ++ [y]) (List.length r')) in Hlast.
    rewrite nth_error_app2 in Hlast by lia.
    rewrite Nat.sub_diag in Hlast. simpl in Hlast. inversion Hlast. reflexivity.
Qed.

(** A text the inner loop tried and that decodes: it runs from the cursor
    through a closing brace of the buffer. *)
Lemma probe_decodes (data : str) (L start : Z) (msg : pyval) :
  0 <= L < len data ->
  Json.loads (probe data L start) = Some msg ->
  exists n : nat,
    (0 < n)%nat /\ (Z.to_nat L + n <= List.length data)%nat
    /\ probe data L start = firstn n (skipn (Z.to_nat L) data)
    /\ nth_error data (Z.to_nat L + n - 1) = Some RBRACE.
Proof.
  intros HL Hl. unfold probe in *.
  destruct (str_find_spec data RBRACE start) as [E|[Hb Hn]].
  - exfalso. rewrite E in Hl. unfold slice in Hl.
    rewrite (clamp_inside _ L) in Hl by lia.
    change (clamp (len data) (-1 + 1)) with (Z.min 0 (len data)) in Hl.
    replace (Z.to_nat (Z.min 0 (len data) - L)) with 0%nat in Hl by lia.
    discriminate.
  - set (r := str_find data RBRACE start) in *.
    unfold slice in *. rewrite (clamp_inside _ L) in * by lia.
    rewrite (clamp_inside _ (r + 1)) in * by lia.
    destruct (Z.le_gt_cases (r + 1) L) as [Hle|Hgt].
    { exfalso. replace (Z.to_nat (r + 1 - L)) with 0%nat in Hl by lia.
      discriminate. }
    exists (Z.to_nat (r + 1 - L)).
    unfold len in *. split; [lia|]. split; [lia|]. split; [reflexivity|].
    replace (Z.to_nat L + Z.to_nat (r + 1 - L) - 1)%nat with (Z.to_nat r) by lia.
    exact Hn.
Qed.

Lemma probe_is_frame (data : str) (L start : Z) (msg : pyval) :
  0 <= L < len data ->
  str_index data L = Some LBRACE ->
  Json.loads (probe data L start) = Some msg ->
  frame_of (probe data L start) msg
  /\ firstn (Z.to_nat (L + len (probe data L start))) data
     = firstn (Z.to_nat L) data ++ probe data L start
  /\ L < L + len (probe data L start) <= len data.
Proof.
  intros HL Hc Hl.
  destruct (probe_decodes data L start msg HL Hl) as (n & Hn & Hle & Hp & Hlast).
  assert (Hlen : List.length (probe data L start) = n).
  { rewrite Hp, length_firstn, length_skipn. lia. }
  assert (Hhd : hd_error (probe data L start) = Some LBRACE).
  { rewrite Hp. unfold str_index in Hc.
    replace (L <? 0) with false in Hc by (symmetry; apply Z.ltb_ge; lia).
    destruct (skipn (Z.to_nat L) data) as [|x r] eqn:Es.
    - exfalso. apply (f_equal (@List.length _)) in Es.
      rewrite length_skipn in Es. simpl in Es. lia.
    - destruct n; [lia|]. simpl.
      pose proof (nth_error_skipn (Z.to_nat L) data 0%nat) as Hs.
      rewrite Es, Nat.add_0_r in Hs. simpl in Hs. congruence. }
  split; [|split].
  - split; [|split; [exact Hl | exact (loads_object _ _ Hhd Hl)]].
    apply ends_split; [exact Hhd | | discriminate].
    rewrite Hlen, Hp. rewrite nth_error_firstn.
    replace (n - 1 <? n)%nat with true by (symmetry; apply Nat.ltb_lt; lia).
    rewrite nth_error_skipn.
    replace (Z.to_nat L + (n - 1))%nat with (Z.to_nat L + n - 1)%nat by lia.
    exact Hlast.
  - unfold len. rewrite Hlen, Hp.
    replace (Z.to_nat (L + Z.of_nat n)) with (Z.to_nat L + n)%nat by lia.
    rewrite <- (firstn_skipn (Z.to_nat L) data) at 1.
    rewrite firstn_app, length_firstn.
    replace (Nat.min (Z.to_nat L) (List.length data)) with (Z.to_nat L) by lia.
    rewrite firstn_firstn.
    replace (Nat.min (Z.to_nat L + n) (Z.to_nat L)) with (Z.to_nat L) by lia.
    replace (Z.to_nat L + n - Z.to_nat L)%nat with n by lia.
    reflexivity.
  - unfold len in *. rewrite Hlen. lia.
Qed.

(** The outer loop keeps this: the frames cut so far are the buffer up to
    the cursor, and each of them decodes to the message at its place in the
    result. *)
Lemma parse_loop_frames (fuel : nat) :
  forall (data : str) (L : Z) (result out : list pyval) (frames0 : list str),
    0 <= L <= len data ->
    List.concat frames0 = firstn (Z.to_nat L) data ->
    Forall2 frame_of frames0 result ->
    parse_loop fuel data L result = Returned out ->
    exists frames, List.concat frames = data /\ Forall2 frame_of frames out.
Proof.
  induction fuel as [|f IH]; intros data L result out frames0 HL Hcat Hfr H;
    [discriminate|].
  rewrite parse_loop_unfold in H.
  destruct (L <? len data) eqn:Elt.
  - apply Z.ltb_lt in Elt.
    destruct (str_index data L) as [c|] eqn:Ec; [|discriminate].
    destruct (N.eqb c LBRACE) eqn:Eb; [|discriminate].
    apply N.eqb_eq in Eb. subst c.
    destruct (find_msg f data L L) as [[msg substr]| |] eqn:Ef;
      cbn [bind] in H; try discriminate.
    destruct (find_msg_returned _ _ _ _ _ _ Ef) as (start' & -> & Hl).
    destruct (probe_is_frame data L start' msg ltac:(lia) Ec Hl)
      as (Hframe & Hfirst & Hb).
    apply (IH data _ _ out (frames0 ++ [probe data L start'])) in H.
    + exact H.
    + lia.
    + rewrite concat_app. simpl. rewrite app_nil_r, Hcat. symmetry. exact Hfirst.
    + apply Forall2_app; [exact Hfr | constructor; [exact Hframe | constructor]].
  - apply Z.ltb_ge in Elt. inversion H; subst out.
    exists frames0. split; [|exact Hfr].
    rewrite Hcat. apply firstn_all2. unfold len in *. lia.
Qed.

(** X1.  Whenever [parse_gspro_data] returns, the buffer was text made of
    frames back to back and nothing else: each frame runs from an opening
    brace through a closing brace, and the list returned holds, in order,
    the dict each frame decodes to. *)
Theorem parse_gspro_data_frames (fuel : nat) (data : bytes) (result : list pyval) :
  parse_gspro_data fuel data = Returned result ->
  exists (s : str) (frames : list str),
    utf8_decode data = Some s
    /\ List.concat frames = s
    /\ Forall2 frame_of frames result.
Proof.
  unfold parse_gspro_data. destruct (utf8_decode data) as [s|]; [|discriminate].
  intros H. exists s.
  destruct (parse_loop_frames fuel s 0 [] result [] ltac:(pose proof (len_nonneg s); lia)
              eq_refl (Forall2_nil _) H) as (frames & Hc & Hf).
  exists frames. auto.
Qed.

Lemma parse_gspro_data_frames_witness :
  exists (s : str) (frames : list str),
    utf8_decode four_messages = Some s
    /\ List.concat frames = s
    /\ Forall2 frame_of frames four_messages_decoded.
Proof.
  apply (parse_gspro_data_frames 5 four_messages four_messages_decoded).
  vm_compute. reflexivity.
Defined.

Lemma utf8_decode_nil (data : bytes) : utf8_decode data = Some [] -> data = [].
Proof.
  destruct data as [|b0 r]; [reflexivity|]. simpl.
  repeat match goal with
         | |- (if ?x then _ else _) = _ -> _ => destruct x
         | |- match ?x with _ => _ end = _ -> _ => destruct x
         | |- option_map _ ?x = _ -> _ => destruct x; simpl
         end; discriminate.
Qed.

Lemma parse_gspro_data_nil_inv (fuel : nat) (data : bytes) :
  parse_gspro_data fuel data = Returned [] -> data = [].
Proof.
  intros H. unfold parse_gspro_data in H.
  destruct (utf8_decode data) as [s|] eqn:Ed; [|discriminate].
  destruct (parse_loop_frames fuel s 0 [] [] []
              ltac:(pose proof (len_nonneg s); lia) eq_refl (Forall2_nil _) H)
    as (frames & Hc & Hf).
  inversion Hf; subst. apply utf8_decode_nil. exact Ed.
Qed.

(** X2.  The empty list is what [parse_gspro_data] returns on the empty
    buffer, and on no other. *)
Theorem parse_gspro_data_empty (fuel : nat) (data : bytes) :
  parse_gspro_data (S fuel) data = Returned [] <-> data = [].
Proof.
  split; [apply parse_gspro_data_nil_inv | intros ->; reflexivity].
Qed.




(** *** Text after a value does not change the value *)

Lemma skip_ws_app (s t : str) :
  Json.skip_ws s <> [] -> Json.skip_ws (s ++ t) = Json.skip_ws s ++ t.
Proof.
  induction s as [|c r IH]; simpl; [congruence|].
  destruct (Json.is_ws c); [exact IH | reflexivity].
Qed.

Lemma skip_ws_cons_app (s t : str) (c : char) (r : str) :
  Json.skip_ws s = c :: r -> Json.skip_ws (s ++ t) = c :: r ++ t.
Proof.
  intros H. rewrite skip_ws_app by (rewrite H; discriminate).
  rewrite H. reflexivity.
Qed.

Lemma scanstring_ext_aux (n : nat) :
  forall s, (List.length s <= n)%nat ->
  forall acc x r t, Json.scanstring s acc = Some (x, r) ->
                    Json.scanstring (s ++ t) acc = Some (x, r ++ t).
Proof.
  induction n as [|n IH]; intros s Hn acc x r t H;
    (destruct s as [|c s1]; [discriminate|]); [cbn [List.length] in Hn; lia|].
  cbn [Json.scanstring app] in *.
  destruct (N.eqb c 34); [inversion H; subst; reflexivity|].
  destruct (N.eqb c 92).
  - destruct s1 as [|e r1]; [discriminate|]. cbn [app].
    destruct (N.eqb e 117).
    + destruct r1 as [|h1 [|h2 [|h3 [|h4 r2]]]]; try discriminate. cbn [app].
      destruct (Json.hex4 h1 h2 h3 h4) as [u1|]; [|discriminate].
      assert (Hr2 : forall a, Json.scanstring r2 a = Some (x, r) ->
                Json.scanstring (r2 ++ t) a = Some (x, r ++ t)).
      { intros a Ha. apply IH; [cbn [List.length] in *; lia | exact Ha]. }
      destruct (in_range 55296 56319 u1); [|apply Hr2; exact H].
      destruct r2 as [|b r2]; [discriminate|].
      destruct r2 as [|u r2].
      { (* one character left after the escape *)
        cbn [Json.scanstring] in H.
        destruct (N.eqb b 34) eqn:Eb.
        - apply N.eqb_eq in Eb. subst b. inversion H; subst.
          cbn [app]. destruct t as [|t1 t2]; [reflexivity|].
          destruct t2 as [|? [|? [|? [|? ?]]]]; reflexivity.
        - destruct (N.eqb b 92); [discriminate|].
          destruct (N.ltb b 32); discriminate. }
      destruct (N.eqb b 92 && N.eqb u 117)%bool eqn:Ebu.
      * apply andb_true_iff in Ebu as [Eb Eu].
        apply N.eqb_eq in Eb, Eu. subst b u.
        destruct r2 as [|l1 [|l2 [|l3 [|l4 r3]]]];
          try (cbn [Json.scanstring] in H;
               change (N.eqb 92 34) with false in H;
               change (N.eqb 92 92) with true in H;
               change (N.eqb 117 117) with true in H;
               cbv iota in H; discriminate).
        cbn [app]. change (N.eqb 92 92 && N.eqb 117 117)%bool with true.
        cbv iota.
        destruct (Json.hex4 l1 l2 l3 l4) as [u2|]; [|discriminate].
        destruct (in_range 56320 57343 u2).
        -- apply IH; [cbn [List.length] in *; lia | exact H].
        -- apply (Hr2 (u1 :: acc)). exact H.
      * assert (Hgo : Json.scanstring (b :: u :: r2) (u1 :: acc) = Some (x, r)).
        { destruct r2 as [|l1 [|l2 [|l3 [|l4 r3]]]]; exact H. }
        apply (Hr2 (u1 :: acc)) in Hgo. cbn [app] in *.
        destruct (r2 ++ t) as [|l1 [|l2 [|l3 [|l4 r3]]]];
          first [exact Hgo | rewrite Ebu; exact Hgo].
    + destruct (Json.simple_escape e); [|discriminate].
      apply IH; [cbn [List.length] in *; lia | exact H].
  - destruct (N.ltb c 32); [discriminate|].
    apply IH; [cbn [List.length] in *; lia | exact H].
Qed.

Lemma scanstring_ext (s acc x r t : str) :
  Json.scanstring s acc = Some (x, r) ->
  Json.scanstring (s ++ t) acc = Some (x, r ++ t).
Proof. apply (scanstring_ext_aux (List.length s)). lia. Qed.

Lemma is_delim_not_digit (c : char) : is_delim c = true -> Json.is_digit c = false.
Proof.
  unfold is_delim, Json.is_ws, Json.is_digit, in_range. intros H.
  repeat (apply orb_true_iff in H as [H|H]); apply N.eqb_eq in H; subst;
    reflexivity.
Qed.

Lemma take_digits_ext (s : str) :
  forall a n v k c r t,
    Json.take_digits s a n = (v, k, c :: r) ->
    Json.take_digits (s ++ t) a n = (v, k, c :: r ++ t).
Proof.
  induction s as [|d s IH]; intros a n v k c r t H; simpl in *; [discriminate|].
  destruct (Json.is_digit d).
  - apply IH. exact H.
  - inversion H; subst. reflexivity.
Qed.

Lemma int_part_ext (s : str) (i : N) (c : char) (r t : str) :
  Json.int_part s = Some (i, c :: r) ->
  Json.int_part (s ++ t) = Some (i, c :: r ++ t).
Proof.
  unfold Json.int_part. destruct s as [|d s]; [discriminate|]. cbn [app].
  destruct (N.eqb d 48); [intros H; inversion H; subst; reflexivity|].
  destruct (in_range 49 57 d); [|discriminate].
  destruct (Json.take_digits s (d - 48)%N 1) as [[v k] r'] eqn:E.
  intros H. inversion H; subst.
  rewrite (take_digits_ext _ _ _ _ _ _ _ t E). reflexivity.
Qed.

Lemma frac_part_ext (s : str) (a m : N) (k : nat) (c : char) (r t : str) :
  Json.frac_part s a = Some (m, k, c :: r) ->
  Json.frac_part (s ++ t) a = Some (m, k, c :: r ++ t).
Proof.
  unfold Json.frac_part. destruct s as [|p [|d s]]; try discriminate.
  cbn [app]. destruct (N.eqb p 46 && Json.is_digit d)%bool; [|discriminate].
  intros H.
  assert (E : Json.take_digits (d :: s) a 0 = (m, k, c :: r)) by congruence.
  apply (take_digits_ext _ _ _ _ _ _ _ t) in E. cbn [app] in E. rewrite E.
  reflexivity.
Qed.

Lemma frac_part_head (p : char) (s : str) (a : N) :
  N.eqb p 46 = false -> Json.frac_part (p :: s) a = None.
Proof.
  intros H. unfold Json.frac_part. destruct s; [reflexivity|].
  rewrite H. reflexivity.
Qed.

Lemma exp_part_head (p : char) (s : str) :
  (N.eqb p 101 || N.eqb p 69)%bool = false -> Json.exp_part (p :: s) = None.
Proof. intros H. unfold Json.exp_part. rewrite H. reflexivity. Qed.

Lemma exp_part_some_head (s : str) (e : Z) (r : str) :
  Json.exp_part s = Some (e, r) ->
  exists p s', s = p :: s' /\ (N.eqb p 101 || N.eqb p 69)%bool = true.
Proof.
  unfold Json.exp_part. destruct s as [|p s']; [discriminate|].
  destruct (N.eqb p 101 || N.eqb p 69)%bool eqn:E; [|discriminate].
  intros _. exists p, s'. split; [reflexivity | exact E].
Qed.

Lemma exp_part_ext (s : str) (e : Z) (c : char) (r t : str) :
  Json.exp_part s = Some (e, c :: r) ->
  Json.exp_part (s ++ t) = Some (e, c :: r ++ t).
Proof.
  unfold Json.exp_part. destruct s as [|p s]; [discriminate|]. cbn [app].
  destruct (N.eqb p 101 || N.eqb p 69)%bool; [|discriminate].
  destruct s as [|sg s'].
  - simpl. discriminate.
  - cbn [app].
    destruct (N.eqb sg 45).
    + destruct (Json.take_digits s' 0 0) as [[v k] r2] eqn:E.
      destruct k; [discriminate|]. intros H. inversion H; subst.
      rewrite (take_digits_ext _ _ _ _ _ _ _ t E). reflexivity.
    + destruct (N.eqb sg 43).
      * destruct (Json.take_digits s' 0 0) as [[v k] r2] eqn:E.
        destruct k; [discriminate|]. intros H. inversion H; subst.
        rewrite (take_digits_ext _ _ _ _ _ _ _ t E). reflexivity.
      * destruct (Json.take_digits (sg :: s') 0 0) as [[v k] r2] eqn:E.
        destruct k; [discriminate|]. intros H. inversion H; subst.
        apply (take_digits_ext _ _ _ _ _ _ _ t) in E. cbn [app] in E.
        rewrite E. reflexivity.
Qed.

Lemma delim_not_dot (c : char) : is_delim c = true -> N.eqb c 46 = false.
Proof.
  unfold is_delim, Json.is_ws. intros H.
  repeat (apply orb_true_iff in H as [H|H]); apply N.eqb_eq in H; subst;
    reflexivity.
Qed.

Lemma delim_not_exp (c : char) :
  is_delim c = true -> (N.eqb c 101 || N.eqb c 69)%bool = false.
Proof.
  unfold is_delim, Json.is_ws. intros H.
  repeat (apply orb_true_iff in H as [H|H]); apply N.eqb_eq in H; subst;
    reflexivity.
Qed.

Lemma exp_not_dot (p : char) :
  (N.eqb p 101 || N.eqb p 69)%bool = true -> N.eqb p 46 = false.
Proof.
  intros H. apply orb_true_iff in H as [H|H]; apply N.eqb_eq in H; subst;
    reflexivity.
Qed.

(** Rewrites with an extension lemma, after bringing its left side to the
    form the goal has. *)
Ltac ext_rewrite E :=
  let E' := fresh "E" in
  pose proof E as E'; cbn [app] in E'; rewrite E'; clear E'.

Lemma number_tail_ext (neg : bool) (s1 : str) (v : pyval) (c : char)
    (r0 t : str) :
  match Json.int_part s1 with
  | None => None
  | Some (i, s2) =>
      match Json.frac_part s2 i, Json.exp_part s2 with
      | None, None => Some (PInt (if neg then - Z.of_N i else Z.of_N i), s2)
      | None, Some (e, s3) => Some (PFloat (Json.mk_float neg i e), s3)
      | Some (m, k, s3), _ =>
          match Json.exp_part s3 with
          | None => Some (PFloat (Json.mk_float neg m (- Z.of_nat k)), s3)
          | Some (e, s4) => Some (PFloat (Json.mk_float neg m (e - Z.of_nat k)), s4)
          end
      end
  end = Some (v, c :: r0) ->
  is_delim c = true ->
  match Json.int_part (s1 ++ t) with
  | None => None
  | Some (i, s2) =>
      match Json.frac_part s2 i, Json.exp_part s2 with
      | None, None => Some (PInt (if neg then - Z.of_N i else Z.of_N i), s2)
      | None, Some (e, s3) => Some (PFloat (Json.mk_float neg i e), s3)
      | Some (m, k, s3), _ =>
          match Json.exp_part s3 with
          | None => Some (PFloat (Json.mk_float neg m (- Z.of_nat k)), s3)
          | Some (e, s4) => Some (PFloat (Json.mk_float neg m (e - Z.of_nat k)), s4)
          end
      end
  end = Some (v, c :: r0 ++ t).
Proof.
  intros H Hc.
  destruct (Json.int_part s1) as [[i s2]|] eqn:E2; [|discriminate].
  destruct (Json.frac_part s2 i) as [[[m k] s3]|] eqn:E3.
  - assert (Hs2 : exists p s2', s2 = p :: s2').
    { destruct s2; [discriminate | eauto]. }
    destruct Hs2 as (p & s2' & ->).
    ext_rewrite (int_part_ext _ _ _ _ t E2).
    destruct (Json.exp_part s3) as [[e s4]|] eqn:E4.
    + inversion H; subst.
      destruct (exp_part_some_head _ _ _ E4) as (q & s3' & -> & _).
      ext_rewrite (frac_part_ext _ _ _ _ _ _ t E3).
      ext_rewrite (exp_part_ext _ _ _ _ t E4). reflexivity.
    + inversion H; subst.
      ext_rewrite (frac_part_ext _ _ _ _ _ _ t E3).
      rewrite (exp_part_head c _ (delim_not_exp c Hc)). reflexivity.
  - destruct (Json.exp_part s2) as [[e s3]|] eqn:E4.
    + inversion H; subst.
      destruct (exp_part_some_head _ _ _ E4) as (q & s2' & -> & Hq).
      ext_rewrite (int_part_ext _ _ _ _ t E2).
      rewrite (frac_part_head q _ _ (exp_not_dot q Hq)).
      ext_rewrite (exp_part_ext _ _ _ _ t E4). reflexivity.
    + inversion H; subst.
      ext_rewrite (int_part_ext _ _ _ _ t E2).
      rewrite (frac_part_head c _ _ (delim_not_dot c Hc)).
      rewrite (exp_part_head c _ (delim_not_exp c Hc)). reflexivity.
Qed.

(** A number that a delimiter ends is read the same whatever follows. *)
Lemma scan_number_ext (s : str) (v : pyval) (r t : str) :
  Json.scan_number s = Some (v, r) -> delim_head r ->
  Json.scan_number (s ++ t) = Some (v, r ++ t).
Proof.
  intros H (c & r0 & -> & Hc).
  unfold Json.scan_number in *.
  destruct s as [|c0 s0]; [discriminate|]. cbn [app].
  destruct (N.eqb c0 45).
  - exact (number_tail_ext true s0 v c r0 t H Hc).
  - exact (number_tail_ext false (c0 :: s0) v c r0 t H Hc).
Qed.

Lemma strip_prefix_ext (p : str) :
  forall s r t, Json.strip_prefix p s = Some r ->
                Json.strip_prefix p (s ++ t) = Some (r ++ t).
Proof.
  induction p as [|a p IH]; intros s r t H; simpl in *.
  - inversion H. reflexivity.
  - destruct s as [|b s]; [discriminate|]. cbn [app].
    destruct (N.eqb a b); [apply IH; exact H | discriminate].
Qed.

(** A literal that a text does not start with is not what the text
    continued starts with either, unless the text is cut inside it. *)
Lemma strip_prefix_none_ext (p : str) :
  forall s t, Json.strip_prefix p s = None ->
    Json.strip_prefix p (s ++ t) = None
    \/ exists k, (k < List.length p)%nat /\ s = firstn k p.
Proof.
  induction p as [|a p IH]; intros s t H; simpl in *; [discriminate|].
  destruct s as [|b s].
  - right. exists 0%nat. split; [lia | reflexivity].
  - cbn [app]. destruct (N.eqb a b) eqn:E; [|left; reflexivity].
    apply N.eqb_eq in E. subst b.
    destruct (IH s t H) as [Hn|(k & Hk & ->)]; [left; exact Hn | right].
    exists (S k). split; [lia | reflexivity].
Qed.

Lemma scan_once_nil (f : nat) : Json.scan_once f [] = None.
Proof. destruct f; reflexivity. Qed.

Lemma object_members_nil (f : nat) (acc : dict) :
  Json.object_members f [] acc = None.
Proof. destruct f; reflexivity. Qed.

Lemma array_elements_nil (f : nat) (acc : list pyval) :
  Json.array_elements f [] acc = None.
Proof.
  destruct f; [reflexivity|]. cbn [Json.array_elements].
  rewrite scan_once_nil. reflexivity.
Qed.

Lemma skip_ws_head (r : str) (d : char) (r' : str) :
  Json.skip_ws r = d :: r' -> is_delim d = true -> delim_head r.
Proof.
  intros H Hd. destruct r as [|c r0]; [discriminate|]. simpl in H.
  exists c, r0. split; [reflexivity|].
  destruct (Json.is_ws c) eqn:E.
  - unfold is_delim. rewrite E. reflexivity.
  - inversion H; subst. exact Hd.
Qed.

(** In the branch of the scanner for the literals and numbers, a text cut
    inside a literal is no value. *)
Ltac cut_literal H0 Hpre :=
  let k := fresh "k" in
  let Hk := fresh "Hk" in
  let Hs := fresh "Hs" in
  destruct Hpre as (k & Hk & Hs); simpl in Hk;
  do 10 (try (destruct k as [|k];
              [vm_compute in Hs; inversion Hs; subst;
               vm_compute in H0; discriminate|]));
  exfalso; lia.

Ltac literal H H0 p c s1 t :=
  let r' := fresh "r" in
  let E := fresh "E" in
  let En := fresh "En" in
  let Hpre := fresh "Hpre" in
  destruct (Json.strip_prefix p (c :: s1)) as [r'|] eqn:E;
  [ inversion H; subst;
    ext_rewrite (strip_prefix_ext _ _ _ t E); reflexivity
  | destruct (strip_prefix_none_ext _ _ t E) as [En|Hpre];
    [ ext_rewrite En | cut_literal H0 Hpre ] ].

(** A value read from a text is read the same, with the same or more
    fuel, from the text continued by anything, provided the value is a
    string, an object or an array, or a delimiter follows it. *)
Lemma scan_ext (f : nat) :
  (forall s v r,
      Json.scan_once f s = Some (v, r) -> delim_head r \/ opens s ->
      forall t f', (f <= f')%nat ->
        Json.scan_once f' (s ++ t) = Some (v, r ++ t))
  /\ (forall s acc v r,
         Json.object_members f s acc = Some (v, r) ->
         forall t f', (f <= f')%nat ->
           Json.object_members f' (s ++ t) acc = Some (v, r ++ t))
  /\ (forall s acc v r,
         Json.array_elements f s acc = Some (v, r) ->
         forall t f', (f <= f')%nat ->
           Json.array_elements f' (s ++ t) acc = Some (v, r ++ t)).
Proof.
  induction f as [|f (IHs & IHo & IHa)];
    [repeat split; intros; discriminate|].
  split; [|split].
  - intros s v r H Hpre t f' Hf.
    destruct f' as [|f']; [lia|]. apply le_S_n in Hf.
    pose proof H as H0.
    destruct s as [|c s1]; [discriminate|].
    cbn [Json.scan_once app] in H |- *.
    destruct (N.eqb c 34) eqn:E34.
    { destruct (Json.scanstring s1 []) as [[x r']|] eqn:E; [|discriminate].
      inversion H; subst. rewrite (scanstring_ext _ _ _ _ t E). reflexivity. }
    destruct (N.eqb c 123) eqn:E123.
    { destruct (Json.skip_ws s1) as [|c' r'] eqn:E; [discriminate|].
      rewrite (skip_ws_cons_app _ t _ _ E).
      destruct (N.eqb c' 125); [inversion H; subst; reflexivity|].
      exact (IHo (c' :: r') [] v r H t f' Hf). }
    destruct (N.eqb c 91) eqn:E91.
    { destruct (Json.skip_ws s1) as [|c' r'] eqn:E; [discriminate|].
      rewrite (skip_ws_cons_app _ t _ _ E).
      destruct (N.eqb c' 93); [inversion H; subst; reflexivity|].
      exact (IHa (c' :: r') [] v r H t f' Hf). }
    assert (Hd : delim_head r).
    { destruct Hpre as [Hd|(c0 & s' & Hs & Hc)]; [exact Hd|].
      inversion Hs; subst c0.
      destruct Hc as [->|[->| ->]]; discriminate. }
    literal H H0 (lit "null") c s1 t.
    literal H H0 (lit "true") c s1 t.
    literal H H0 (lit "false") c s1 t.
    literal H H0 (lit "NaN") c s1 t.
    literal H H0 (lit "Infinity") c s1 t.
    literal H H0 (lit "-Infinity") c s1 t.
    exact (scan_number_ext (c :: s1) v r t H Hd).
  - intros s acc v r H t f' Hf.
    destruct f' as [|f']; [lia|]. apply le_S_n in Hf.
    destruct s as [|q s1]; [discriminate|].
    cbn [Json.object_members app] in H |- *.
    destruct (N.eqb q 34); [|discriminate].
    destruct (Json.scanstring s1 []) as [[key r1]|] eqn:E1; [|discriminate].
    rewrite (scanstring_ext _ _ _ _ t E1).
    destruct (Json.skip_ws r1) as [|colon r2] eqn:Ew1; [discriminate|].
    rewrite (skip_ws_cons_app _ t _ _ Ew1).
    destruct (N.eqb colon 58); [|discriminate].
    destruct (Json.scan_once f (Json.skip_ws r2)) as [[x r3]|] eqn:E3;
      [|discriminate].
    assert (Hw2 : Json.skip_ws r2 <> []).
    { intros En. rewrite En, scan_once_nil in E3. discriminate. }
    rewrite (skip_ws_app _ t Hw2).
    destruct (Json.skip_ws r3) as [|d r4] eqn:Ew3; [discriminate|].
    assert (Hd : delim_head r3).
    { apply (skip_ws_head _ _ _ Ew3). unfold is_delim.
      destruct (N.eqb d 125); [rewrite !orb_true_r; reflexivity|].
      destruct (N.eqb d 44); [rewrite !orb_true_r; reflexivity | discriminate]. }
    rewrite (IHs _ _ _ E3 (or_introl Hd) t f' Hf).
    rewrite (skip_ws_cons_app _ t _ _ Ew3).
    destruct (N.eqb d 125); [inversion H; subst; reflexivity|].
    destruct (N.eqb d 44); [|discriminate].
    assert (Hw4 : Json.skip_ws r4 <> []).
    { intros En. rewrite En, object_members_nil in H. discriminate. }
    rewrite (skip_ws_app _ t Hw4).
    exact (IHo _ _ _ _ H t f' Hf).
  - intros s acc v r H t f' Hf.
    destruct f' as [|f']; [lia|]. apply le_S_n in Hf.
    cbn [Json.array_elements] in H |- *.
    destruct (Json.scan_once f s) as [[x r1]|] eqn:E1; [|discriminate].
    destruct (Json.skip_ws r1) as [|d r2] eqn:Ew1; [discriminate|].
    assert (Hd : delim_head r1).
    { apply (skip_ws_head _ _ _ Ew1). unfold is_delim.
      destruct (N.eqb d 93); [rewrite !orb_true_r; reflexivity|].
      destruct (N.eqb d 44); [rewrite !orb_true_r; reflexivity | discriminate]. }
    rewrite (IHs _ _ _ E1 (or_introl Hd) t f' Hf).
    rewrite (skip_ws_cons_app _ t _ _ Ew1).
    destruct (N.eqb d 93); [inversion H; subst; reflexivity|].
    destruct (N.eqb d 44); [|discriminate].
    assert (Hw2 : Json.skip_ws r2 <> []).
    { intros En. rewrite En, array_elements_nil in H. discriminate. }
    rewrite (skip_ws_app _ t Hw2).
    exact (IHa _ _ _ _ H t f' Hf).
Qed.

(** *** No frame is the beginning of another *)

Lemma skip_ws_nil_all (l : str) :
  Json.skip_ws l = [] -> forall c, In c l -> Json.is_ws c = true.
Proof.
  induction l as [|a l IH]; simpl; intros H c Hin; [tauto|].
  destruct (Json.is_ws a) eqn:E; [|discriminate].
  destruct Hin as [<-|Hin]; auto.
Qed.

(** What [json.loads] does on a text that opens with a brace: one run of
    the scanner, after which only whitespace is left. *)
Lemma loads_scan (o : str) (v : pyval) :
  hd_error o = Some LBRACE -> Json.loads o = Some v ->
  exists rest,
    Json.scan_once (2 * List.length o + 2) o = Some (v, rest)
    /\ Json.skip_ws rest = [].
Proof.
  destruct o as [|c r]; [discriminate|]. simpl hd_error. intros Hc.
  inversion Hc; subst c. unfold Json.loads, Json.loads_with, LBRACE.
  cbv beta iota.
  change (Json.skip_ws (123%N :: r)) with (123%N :: r).
  match goal with
  | |- context [Json.scan_once ?n ?s] =>
      destruct (Json.scan_once n s) as [[v' rest]|] eqn:Es; [|discriminate]
  end.
  destruct (Json.skip_ws rest) eqn:E; [|discriminate].
  intros H. inversion H; subst. exists rest. split; [exact Es | exact E].
Qed.

Lemma frame_prefix_free (o : str) (v : pyval) (p t : str) :
  frame_of o v -> o = p ++ t -> t <> [] -> Json.loads p = None.
Proof.
  intros ((body & Hbody) & Hl & _) Ho Ht.
  destruct (Json.loads p) as [v'|] eqn:Ep; [exfalso | reflexivity].
  assert (Hhd : hd_error o = Some LBRACE) by (rewrite Hbody; reflexivity).
  assert (Hp : hd_error p = Some LBRACE).
  { destruct p as [|c p']; [discriminate|].
    rewrite Ho in Hhd. exact Hhd. }
  destruct (loads_scan p v' Hp Ep) as (rest & Hs & Hw).
  destruct (loads_scan o v Hhd Hl) as (rest_o & Hso & Hwo).
  assert (Hop : opens p).
  { destruct p as [|c p']; [discriminate|]. simpl in Hp. inversion Hp; subst.
    exists LBRACE, p'. split; [reflexivity|]. right. left. reflexivity. }
  pose proof (proj1 (scan_ext _) p v' rest Hs (or_intror Hop) t
                (2 * List.length o + 2)%nat) as He.
  rewrite <- Ho, Hso in He.
  assert (Hle : (2 * List.length p + 2 <= 2 * List.length o + 2)%nat).
  { rewrite Ho, length_app. lia. }
  specialize (He Hle). inversion He; subst v' rest_o.
  destruct (exists_last Ht) as (t' & x & ->).
  assert (Hx : x = RBRACE).
  { rewrite Hbody in Ho.
    change (LBRACE :: body ++ [RBRACE]) with ((LBRACE :: body) ++ [RBRACE]) in Ho.
    rewrite app_assoc in Ho. apply app_inj_tail in Ho as [_ Hx].
    symmetry. exact Hx. }
  subst x.
  assert (Hin : In RBRACE (rest ++ t' ++ [RBRACE])).
  { apply in_or_app. right. apply in_or_app. right. left. reflexivity. }
  apply (skip_ws_nil_all _ Hwo) in Hin. discriminate.
Qed.

(** A buffer is cut into frames in one way only. *)
Lemma frames_unique (fs : list str) (vs : list pyval) :
  Forall2 frame_of fs vs ->
  forall (fs' : list str) (vs' : list pyval),
    Forall2 frame_of fs' vs' ->
    List.concat fs = List.concat fs' ->
    vs = vs'.
Proof.
  assert (Hne : forall f v, frame_of f v -> f <> []).
  { intros f v ((body & ->) & _). discriminate. }
  assert (Hpre : forall f v f' v' l,
            frame_of f v -> frame_of f' v' -> f = f' ++ l -> l = []).
  { intros f v f' v' l Hf Hf' E.
    destruct l as [|x l]; [reflexivity|]. exfalso.
    pose proof (frame_prefix_free f v f' (x :: l) Hf E ltac:(discriminate)) as Hn.
    destruct Hf' as (_ & Hl & _). congruence. }
  induction 1 as [|f v fs vs Hf Hrest IH]; intros fs' vs' H' Hc.
  - destruct H' as [|f' v' fs' vs' Hf' Hrest']; [reflexivity|].
    exfalso. simpl in Hc. symmetry in Hc. apply app_eq_nil in Hc as [Hc _].
    exact (Hne _ _ Hf' Hc).
  - destruct H' as [|f' v' fs' vs' Hf' Hrest'].
    + exfalso. simpl in Hc. apply app_eq_nil in Hc as [Hc _].
      exact (Hne _ _ Hf Hc).
    + simpl in Hc.
      assert (Heq : f = f' /\ List.concat fs = List.concat fs').
      { apply app_eq_app in Hc as (l & [[E1 E2]|[E1 E2]]).
        - pose proof (Hpre _ _ _ _ _ Hf Hf' E1) as ->.
          rewrite app_nil_r in E1. simpl in E2. auto.
        - pose proof (Hpre _ _ _ _ _ Hf' Hf E1) as ->.
          rewrite app_nil_r in E1. simpl in E2. auto. }
      destruct Heq as [<- Hcat].
      destruct Hf as (_ & Hl & _). destruct Hf' as (_ & Hl' & _).
      f_equal; [congruence|]. apply (IH fs' vs' Hrest' Hcat).
Qed.

(** An easy frame is a frame. *)
Lemma easy_frame_is_frame (o : str) (v : pyval) : easy_frame o v -> frame_of o v.
Proof.
  intros (Hhd & Hl & Hclose).
  split; [|split; [exact Hl | exact (loads_object o v Hhd Hl)]].
  assert (Hlast : exists i, 0 <= i /\ i + 1 = len o
                            /\ nth_error o (Z.to_nat i) = Some RBRACE).
  { unfold first_close in Hclose.
    destruct Hclose as [H|[_ H]].
    - destruct (str_find_spec o RBRACE 0) as [E|[Hb Hn]].
      + rewrite E in H. destruct o; [discriminate|]. unfold len in H.
        simpl in H. lia.
      + exists (str_find o RBRACE 0).
        split; [lia|]. split; [exact H | exact Hn].
    - destruct (str_find_spec o RBRACE (str_find o RBRACE 0 + 1)) as [E|[Hb Hn]].
      + rewrite E in H. destruct o; [discriminate|]. unfold len in H.
        simpl in H. lia.
      + exists (str_find o RBRACE (str_find o RBRACE 0 + 1)).
        split; [lia|]. split; [exact H | exact Hn]. }
  destruct Hlast as (i & Hi & Hlen & Hn).
  apply ends_split; [exact Hhd | | discriminate].
  replace (List.length o - 1)%nat with (Z.to_nat i) by (unfold len in Hlen; lia).
  exact Hn.
Qed.

(** X3.  [parse_gspro_data] never returns a wrong split: on a buffer that
    is frames back to back, each a text from an opening brace through a
    closing brace that decodes to a dict, whatever it returns is the list
    of those dicts, in order. *)
Theorem split_is_the_frames (frames : list str) (vals out : list pyval)
    (data : bytes) (fuel : nat) :
  Forall2 frame_of frames vals ->
  utf8_decode data = Some (List.concat frames) ->
  parse_gspro_data fuel data = Returned out ->
  out = vals.
Proof.
  intros Hf Hd H. unfold parse_gspro_data in H. rewrite Hd in H.
  destruct (parse_loop_frames fuel (List.concat frames) 0 [] out []
              ltac:(pose proof (len_nonneg (List.concat frames)); lia)
              eq_refl (Forall2_nil _) H) as (frames' & Hc & Hf').
  symmetry. exact (frames_unique frames vals Hf frames' out Hf' (eq_sym Hc)).
Qed.

Lemma split_is_the_frames_witness :
  parse_gspro_data 5 four_messages = Returned four_messages_decoded
  /\ four_messages_decoded = four_messages_decoded.
Proof.
  split; [vm_compute; reflexivity|].
  apply (split_is_the_frames
           [qlit "{'Code':200,'Message':'Ball Data received','Player':null}";
            qlit "{'Code':201,'Message':'GSPro Player Information','Player':{'Handed':'RH','Club':'DR','DistanceToTarget':380.0}}";
            qlit "{'Code':202,'Message':'GSPro ready','Player':null}";
            qlit "{'Code':203,'Message':'GSPro round ended','Player':null}"]
           four_messages_decoded four_messages_decoded four_messages 5).
  - pose proof four_messages_are_easy_frames as H.
    repeat match goal with
           | H : Forall2 _ (_ :: _) _ |- _ => inversion H; clear H; subst
           end.
    repeat (constructor; [apply easy_frame_is_frame; assumption|]).
    constructor.
  - vm_compute. reflexivity.
  - vm_compute. reflexivity.
Defined.



(** *** Receiving *)

(** X7.  [recv_data] never adds anything to the log, and on an open
    session it returns normally only when the read gave no byte: as soon
    as bytes were read, the call raises or does not return. *)
Theorem recv_data_never_logs (fuel : nat) (self : GSProSession.t) :
  GSProSession.is_open self ->
  GSProSession.shots_and_responses (snd (GSProSession.recv_data (S fuel) self))
  = GSProSession.shots_and_responses self
  /\ (fst (GSProSession.recv_data (S fuel) self) = Returned tt
      <-> next_read (GSProSession.sock self) 2048 = []).
Proof.
  intros Hopen.
  destruct (recv_open (GSProSession.sock self) 2048 Hopen) as (s' & Hrecv & _).
  unfold GSProSession.recv_data. rewrite Hrecv.
  destruct (parse_gspro_data (S fuel) (next_read (GSProSession.sock self) 2048))
    as [[|dct rest]|e|] eqn:Ep; cbn [bind GSProSession.create_all fst snd].
  - cbn [map]. rewrite app_nil_r. split; [reflexivity|].
    split; [intros _; exact (parse_gspro_data_nil_inv _ _ Ep) | reflexivity].
  - change (GSProSession.create_all (dct :: rest)) with
      (@Raised (list GSProMessage.t) AttributeError).
    cbn [fst snd]. split; [reflexivity|].
    split; [discriminate|]. intros E. rewrite E in Ep. discriminate.
  - split; [reflexivity|].
    split; [discriminate|]. intros E. rewrite E in Ep. discriminate.
  - split; [reflexivity|].
    split; [discriminate|]. intros E. rewrite E in Ep. discriminate.
Qed.

Lemma recv_data_never_logs_witness :
  GSProSession.shots_and_responses
    (snd (GSProSession.recv_data 5 (session_on [four_messages] [])))
  = []
  /\ (fst (GSProSession.recv_data 5 (session_on [four_messages] []))
      = Returned tt
      <-> next_read (GSProSession.sock (session_on [four_messages] [])) 2048
          = []).
Proof.
  apply (recv_data_never_logs 4 (session_on [four_messages] [])).
  reflexivity.
Defined.

(** *** The catch-all of a decoded reply *)

Lemma remaining_after_fields (dct : dict) :
  NoDup (dict_keys dct) ->
  dict_remove
    (dict_remove (dict_remove (dict_remove dct (lit "Code")) (lit "Message"))
       (lit "Player")) (lit "Xtra")
  = filter (fun kv => negb (GSProMessage.is_field (fst kv))) dct.
Proof.
  intros Hnd.
  rewrite (dict_remove_filter dct (lit "Code") Hnd).
  rewrite (dict_remove_filter _ (lit "Message")
             (dict_keys_filter_NoDup _ _ Hnd)).
  rewrite (dict_remove_filter _ (lit "Player")
             (dict_keys_filter_NoDup _ _ (dict_keys_filter_NoDup _ _ Hnd))).
  rewrite (dict_remove_filter _ (lit "Xtra")
             (dict_keys_filter_NoDup _ _
                (dict_keys_filter_NoDup _ _ (dict_keys_filter_NoDup _ _ Hnd)))).
  rewrite !filter_filter. apply filter_ext. intros [k v]. simpl.
  unfold GSProMessage.is_field. simpl.
  rewrite !(str_eqb_sym k).
  destruct (str_eqb (lit "Code") k), (str_eqb (lit "Message") k),
    (str_eqb (lit "Player") k), (str_eqb (lit "Xtra") k); reflexivity.
Qed.

(** X8.  Whatever a reply holds, the [Xtra] of the message decoded from
    it is the dict of the members of the reply whose key is not the name of
    a field, in their order.  A member of the reply that is itself called
    [Xtra] is therefore not kept: its value is in no field of the
    message. *)
Theorem create_from_dict_Xtra (dct : dict) (m : GSProMessage.t) :
  NoDup (dict_keys dct) ->
  GSProMessage.create_from_dict dct = Returned m ->
  GSProMessage.Xtra m
  = PDict (filter (fun kv => negb (GSProMessage.is_field (fst kv))) dct).
Proof.
  intros Hnd. rewrite <- (remaining_after_fields dct Hnd).
  unfold GSProMessage.create_from_dict, GSProMessage.field_names.
  rewrite !pop_fields_step, !dict_get_remove_neq by discriminate.
  cbn [GSProMessage.pop_fields].
  destruct (dict_get dct (lit "Code")), (dict_get dct (lit "Message")),
    (dict_get dct (lit "Player")), (dict_get dct (lit "Xtra"));
    cbn; intros H; inversion H; reflexivity.
Qed.

Lemma create_from_dict_Xtra_witness :
  GSProMessage.Xtra
    {| GSProMessage.Code := PInt 200;
       GSProMessage.Message := PNone;
       GSProMessage.Player := PNone;
       GSProMessage.Xtra := PDict [(lit "Hole", PInt 3)] |}
  = PDict [(lit "Hole", PInt 3)].
Proof.
  apply (create_from_dict_Xtra
           [(lit "Code", PInt 200); (lit "Xtra", PStr (lit "kept?"));
            (lit "Hole", PInt 3)]
           {| GSProMessage.Code := PInt 200;
              GSProMessage.Message := PNone;
              GSProMessage.Player := PNone;
              GSProMessage.Xtra := PDict [(lit "Hole", PInt 3)] |}).
  - apply distinct_NoDup. reflexivity.
  - reflexivity.
Defined.

(** *** The commands of [main] that name a field *)

Lemma startswith_firstn (s : str) :
  forall p, startswith s p = true ->
            exists k, (k <= List.length s)%nat /\ p = firstn k s.
Proof.
  induction s as [|c s IH]; intros [|x p] H; simpl in H.
  - exists 0%nat. split; [lia | reflexivity].
  - discriminate.
  - exists 0%nat. split; [simpl; lia | reflexivity].
  - apply andb_true_iff in H as [Hc Hp]. apply N.eqb_eq in Hc. subst x.
    destruct (IH p Hp) as (k & Hk & ->).
    exists (S k). split; [simpl; lia | reflexivity].
Qed.

(** Every prefix of a name, one by one. *)
Ltac each_prefix H :=
  let k := fresh "k" in
  let Hk := fresh "Hk" in
  let Hp := fresh "Hp" in
  destruct (startswith_firstn _ _ H) as (k & Hk & Hp);
  vm_compute in Hk;
  do 10 (try (destruct k as [|k];
              [vm_compute in Hp; subst;
               first [ reflexivity
                     | match goal with
                       | Hne : _ <> _ |- _ => exfalso; apply Hne; reflexivity
                       end ]|]));
  exfalso; vm_compute in Hk; lia.

(** X9.  [get_balldata_field] answers a field exactly for a prefix of its
    name in lower case that no other field shares: every prefix of a name
    does, but the empty text and [s] and [sp], with which both [Speed]
    and [SpinAxis] start; for anything else the answer is [None]. *)
Theorem get_balldata_field_unique_prefix (prefix f : str) :
  get_balldata_field prefix = Some f
  <-> In f BallData_field_names
      /\ startswith (ascii_lower f) prefix = true
      /\ prefix <> [] /\ prefix <> lit "s" /\ prefix <> lit "sp".
Proof.
  split.
  - intros H.
    assert (Hin : In f (filter (fun name => startswith (ascii_lower name) prefix)
                          BallData_field_names)).
    { unfold get_balldata_field in H.
      destruct (filter _ BallData_field_names) as [|g [|]]; try discriminate.
      inversion H. left. reflexivity. }
    apply filter_In in Hin as [Hin Hs].
    split; [exact Hin|]. split; [exact Hs|].
    repeat split; intros ->; vm_compute in H; discriminate.
  - intros (Hin & Hs & H0 & H1 & H2).
    simpl in Hin.
    destruct Hin as [<-|[<-|[<-|[<-|[<-|[]]]]]]; each_prefix Hs.
Qed.

Lemma get_balldata_field_unique_prefix_witness :
  get_balldata_field (lit "spi") = Some (lit "SpinAxis").
Proof.
  apply (proj2 (get_balldata_field_unique_prefix (lit "spi") (lit "SpinAxis"))).
  split; [right; left; reflexivity|]. split; [reflexivity|].
  repeat split; discriminate.
Defined.
